(** * NN3DWalkers: evaluation scheduler and evolution engine

    A shallow embedding of [examples/Evolution/NN3DWalkers.cpp]: the
    population of walkers, the pre-tick update (controller and evaluation
    scheduler) and the evolution engine (rank, reap, sow with crossover and
    mutation), followed by the properties proved about them.

    Conventions of the embedding.
    - [btScalar] and every [float] expression of the source are IEEE-754
      binary32 values ([spec_float] with a 24-bit significand); each
      operation rounds to nearest-even as the single-precision build does.
      Expressions the source evaluates in [double] use the binary64
      operations and are rounded to binary32 where the source stores them
      in a [btScalar].
    - [int] values are [Z]; the population array is a [list NNWalker] and a
      walker pointer is the position of the walker in that array ([None]
      for [NULL]).
    - The members of [NN3DWalkersExample], the hidden state of [rand()] and
      the console written by [b3Printf] form one [State], threaded through
      a state-and-fault monad.
    - Rigid bodies, constraints and rendering belong to the physics world;
      of them the model keeps what the core reads: the body positions, the
      hinge limits and angles, and the motor command it writes. *)

From Stdlib Require Import ZArith Lia Bool List.
From Stdlib Require Import Floats.SpecFloat.
From stdpp Require Import base tactics option list sorting.

Local Open Scope Z_scope.

(** ** Single- and double-precision arithmetic *)

Module F32.
Definition prec : Z := 24.
Definition emax : Z := 128.

Definition add := SFadd prec emax.
Definition sub := SFsub prec emax.
Definition mul := SFmul prec emax.
Definition div := SFdiv prec emax.
Definition sqrt := SFsqrt prec emax.

(** [x < y], [x <= y], [x == y] and their mirrored forms. *)
Definition ltb := SFltb.
Definition leb := SFleb.
Definition eqb := SFeqb.
Definition gtb (x y : spec_float) := SFltb y x.
Definition geb (x y : spec_float) := SFleb y x.
Definition neqb (x y : spec_float) := negb (SFeqb x y).

(** Conversion of an [int] to [float]. *)
Definition of_int (z : Z) : spec_float := binary_normalize prec emax z 0 false.

(** Conversion of a [float] to [int]: truncation towards zero.  The
      conversion of a NaN or an infinity is undefined in C++; it is [0]
      here. *)
Definition to_int (x : spec_float) : Z :=
    match x with
    | S754_finite s m e =>
        let v := if 0 <=? e then Zpos m * 2 ^ e else Zpos m / 2 ^ (- e) in
        if s then - v else v
    | _ => 0
    end.

(** The literal [n/d] written in decimal with an [f] suffix, for [n] and
      [d] exactly representable: the correctly rounded quotient. *)
Definition lit (n d : Z) : spec_float := div (of_int n) (of_int d).

(** Rounding of a finite value of another format, as in the implicit
      conversion of a [double] stored in a [float]. *)
Definition round (x : spec_float) : spec_float :=
    match x with
    | S754_finite s m e => binary_round prec emax s m e
    | _ => x
    end.
End F32.

Module F64.
Definition prec : Z := 53.
Definition emax : Z := 1024.

Definition add := SFadd prec emax.
Definition sub := SFsub prec emax.
Definition mul := SFmul prec emax.
Definition div := SFdiv prec emax.
Definition of_int (z : Z) : spec_float := binary_normalize prec emax z 0 false.
End F64.

Definition btScalar : Type := spec_float.

Declare Scope f32_scope.
Delimit Scope f32_scope with f32.
Infix "+" := F32.add : f32_scope.
Infix "-" := F32.sub : f32_scope.
Infix "*" := F32.mul : f32_scope.
Infix "/" := F32.div : f32_scope.
Infix "<?" := F32.ltb : f32_scope.
Infix "<=?" := F32.leb : f32_scope.
Infix ">?" := F32.gtb : f32_scope.
Infix ">=?" := F32.geb : f32_scope.
Infix "=?" := F32.eqb : f32_scope.


(** ** Configurable parameters

    The [#define]s of the source that an [#ifndef] leaves open, with the
    values the file gives them. *)

Record Config := {
  POPULATION_SIZE : Z;        (* number of walkers in the population *)
  EVALUATION_DURATION : Z;    (* s (duration of one single evaluation) *)
  REAP_QTY : btScalar;        (* walkers reaped for their bad performance *)
  SOW_CROSSOVER_QTY : btScalar; (* walkers recreated via crossover *)
  SOW_ELITE_QTY : btScalar;   (* walkers kept using an elitist strategy *)
  SOW_MUTATION_QTY : btScalar; (* SOW_ELITE_QTY + SOW_MUTATION_QTY + REAP_QTY = 1 *)
  MUTATION_RATE : btScalar;   (* mutation rate of the worst walker *)
  SOW_ELITE_PARTNER : btScalar; (* chance an elite partner is chosen *)
  REBUILD_WALKER : bool       (* if the walker is rebuilt on mutation *)
}.

Definition defaultConfig : Config := {|
  POPULATION_SIZE := 50;
  EVALUATION_DURATION := 10;
  REAP_QTY := F32.lit 3 10;
  SOW_CROSSOVER_QTY := F32.lit 2 10;
  SOW_ELITE_QTY := F32.lit 2 10;
  SOW_MUTATION_QTY := F32.lit 5 10;
  MUTATION_RATE := F32.lit 5 10;
  SOW_ELITE_PARTNER := F32.lit 8 10;
  REBUILD_WALKER := true
|}.

Definition NUM_WALKER_LEGS : Z := 6.
Definition BODYPART_COUNT : Z := 2 * NUM_WALKER_LEGS + 1.
Definition JOINT_COUNT : Z := BODYPART_COUNT - 1.

(** ** Data model *)

Record btVector3 := { vx : btScalar; vy : btScalar; vz : btScalar }.

Definition vzero : btVector3 :=
  {| vx := F32.of_int 0; vy := F32.of_int 0; vz := F32.of_int 0 |}.
Definition vadd (a b : btVector3) : btVector3 :=
  {| vx := vx a + vx b; vy := vy a + vy b; vz := vz a + vz b |}%f32.
Definition vsub (a b : btVector3) : btVector3 :=
  {| vx := vx a - vx b; vy := vy a - vy b; vz := vz a - vz b |}%f32.
Definition vscale (a : btVector3) (k : btScalar) : btVector3 :=
  {| vx := vx a * k; vy := vy a * k; vz := vz a * k |}%f32.
(** [v /= s] of [btVector3] multiplies by the reciprocal. *)
Definition vdiv (a : btVector3) (k : btScalar) : btVector3 :=
  vscale a (F32.of_int 1 / k)%f32.
Definition length2 (a : btVector3) : btScalar :=
  (vx a * vx a + vy a * vy a + vz a * vz a)%f32.

(** What the core reads and writes of a [btHingeConstraint]. *)
Record btHingeConstraint := {
  m_lowerLimit : btScalar;
  m_upperLimit : btScalar;
  m_hingeAngle : btScalar;
  m_enableAngularMotor : bool;
  m_motorTargetVelocity : btScalar;
  m_maxMotorImpulse : btScalar
}.

Definition enableAngularMotor (enable : bool) (targetVelocity maxMotorImpulse : btScalar)
    (h : btHingeConstraint) : btHingeConstraint :=
  {| m_lowerLimit := m_lowerLimit h; m_upperLimit := m_upperLimit h;
     m_hingeAngle := m_hingeAngle h; m_enableAngularMotor := enable;
     m_motorTargetVelocity := targetVelocity; m_maxMotorImpulse := maxMotorImpulse |}.

Record NNWalker := {
  m_bodies : list btVector3;          (* centre of mass of each body part *)
  m_joints : list btHingeConstraint;
  m_touchSensors : list bool;
  m_sensoryMotorWeights : list btScalar;
  m_inEvaluation : bool;
  m_evaluationTime : btScalar;
  m_reaped : bool;
  m_startPosition : btVector3;
  m_index : Z;
  m_legUpdateAccumulator : btScalar
}.

(** Field updates. *)
Definition withBodies (v : list btVector3) (w : NNWalker) : NNWalker :=
  {| m_bodies := v; m_joints := m_joints w; m_touchSensors := m_touchSensors w;
     m_sensoryMotorWeights := m_sensoryMotorWeights w; m_inEvaluation := m_inEvaluation w;
     m_evaluationTime := m_evaluationTime w; m_reaped := m_reaped w;
     m_startPosition := m_startPosition w; m_index := m_index w;
     m_legUpdateAccumulator := m_legUpdateAccumulator w |}.
Definition withJoints (v : list btHingeConstraint) (w : NNWalker) : NNWalker :=
  {| m_bodies := m_bodies w; m_joints := v; m_touchSensors := m_touchSensors w;
     m_sensoryMotorWeights := m_sensoryMotorWeights w; m_inEvaluation := m_inEvaluation w;
     m_evaluationTime := m_evaluationTime w; m_reaped := m_reaped w;
     m_startPosition := m_startPosition w; m_index := m_index w;
     m_legUpdateAccumulator := m_legUpdateAccumulator w |}.
Definition withTouchSensors (v : list bool) (w : NNWalker) : NNWalker :=
  {| m_bodies := m_bodies w; m_joints := m_joints w; m_touchSensors := v;
     m_sensoryMotorWeights := m_sensoryMotorWeights w; m_inEvaluation := m_inEvaluation w;
     m_evaluationTime := m_evaluationTime w; m_reaped := m_reaped w;
     m_startPosition := m_startPosition w; m_index := m_index w;
     m_legUpdateAccumulator := m_legUpdateAccumulator w |}.
Definition withWeights (v : list btScalar) (w : NNWalker) : NNWalker :=
  {| m_bodies := m_bodies w; m_joints := m_joints w; m_touchSensors := m_touchSensors w;
     m_sensoryMotorWeights := v; m_inEvaluation := m_inEvaluation w;
     m_evaluationTime := m_evaluationTime w; m_reaped := m_reaped w;
     m_startPosition := m_startPosition w; m_index := m_index w;
     m_legUpdateAccumulator := m_legUpdateAccumulator w |}.
Definition withStartPosition (v : btVector3) (w : NNWalker) : NNWalker :=
  {| m_bodies := m_bodies w; m_joints := m_joints w; m_touchSensors := m_touchSensors w;
     m_sensoryMotorWeights := m_sensoryMotorWeights w; m_inEvaluation := m_inEvaluation w;
     m_evaluationTime := m_evaluationTime w; m_reaped := m_reaped w;
     m_startPosition := v; m_index := m_index w;
     m_legUpdateAccumulator := m_legUpdateAccumulator w |}.

(** Reading and writing a C array at an [int] index. *)
Definition aget {A} (d : A) (l : list A) (i : Z) : A := default d (l !! Z.to_nat i).
Definition aset {A} (l : list A) (i : Z) (x : A) : list A := <[Z.to_nat i := x]> l.
(** [l[i]->method(...)] for an array of objects. *)
Definition amod {A} (l : list A) (i : Z) (method : A -> A) : list A :=
  alter method (Z.to_nat i) l.

(** *** Methods of [NNWalker] that need neither [rand()] nor the world *)

(** [setTouchSensor]: the body pointer is the number of the body part,
    which is what [m_bodyTouchSensorIndexMap] maps it to. *)
Definition setTouchSensor (body : Z) (w : NNWalker) : NNWalker :=
  withTouchSensors (aset (m_touchSensors w) body true) w.

Definition clearTouchSensors (w : NNWalker) : NNWalker :=
  withTouchSensors
    (foldl (fun sensors i => aset sensors i false) (m_touchSensors w) (seqZ 0 BODYPART_COUNT)) w.

Definition getTouchSensor (w : NNWalker) (i : Z) : bool := aget false (m_touchSensors w) i.

Definition getSensoryMotorWeights (w : NNWalker) : list btScalar := m_sensoryMotorWeights w.

Definition copySensoryMotorWeights (sensoryMotorWeights : list btScalar) (w : NNWalker) : NNWalker :=
  withWeights
    (foldl (fun ws i =>
       foldl (fun ws j =>
         aset ws (i + j * BODYPART_COUNT)
              (aget (F32.of_int 0) sensoryMotorWeights (i + j * BODYPART_COUNT)))
         ws (seqZ 0 JOINT_COUNT))
       (m_sensoryMotorWeights w) (seqZ 0 BODYPART_COUNT)) w.

Definition getPosition (w : NNWalker) : btVector3 :=
  vdiv (foldl vadd vzero (m_bodies w)) (F32.of_int BODYPART_COUNT).

Definition getDistanceFitness (w : NNWalker) : btScalar :=
  length2 (vsub (getPosition w) (m_startPosition w)).

Definition getFitness (w : NNWalker) : btScalar :=
  getDistanceFitness w. (* for now it is only distance *)

Definition setEvaluationTime (t : btScalar) (w : NNWalker) : NNWalker :=
  {| m_bodies := m_bodies w; m_joints := m_joints w; m_touchSensors := m_touchSensors w;
     m_sensoryMotorWeights := m_sensoryMotorWeights w; m_inEvaluation := m_inEvaluation w;
     m_evaluationTime := t; m_reaped := m_reaped w;
     m_startPosition := m_startPosition w; m_index := m_index w;
     m_legUpdateAccumulator := m_legUpdateAccumulator w |}.
Definition setInEvaluation (b : bool) (w : NNWalker) : NNWalker :=
  {| m_bodies := m_bodies w; m_joints := m_joints w; m_touchSensors := m_touchSensors w;
     m_sensoryMotorWeights := m_sensoryMotorWeights w; m_inEvaluation := b;
     m_evaluationTime := m_evaluationTime w; m_reaped := m_reaped w;
     m_startPosition := m_startPosition w; m_index := m_index w;
     m_legUpdateAccumulator := m_legUpdateAccumulator w |}.
Definition setReaped (b : bool) (w : NNWalker) : NNWalker :=
  {| m_bodies := m_bodies w; m_joints := m_joints w; m_touchSensors := m_touchSensors w;
     m_sensoryMotorWeights := m_sensoryMotorWeights w; m_inEvaluation := m_inEvaluation w;
     m_evaluationTime := m_evaluationTime w; m_reaped := b;
     m_startPosition := m_startPosition w; m_index := m_index w;
     m_legUpdateAccumulator := m_legUpdateAccumulator w |}.
Definition setLegUpdateAccumulator (a : btScalar) (w : NNWalker) : NNWalker :=
  {| m_bodies := m_bodies w; m_joints := m_joints w; m_touchSensors := m_touchSensors w;
     m_sensoryMotorWeights := m_sensoryMotorWeights w; m_inEvaluation := m_inEvaluation w;
     m_evaluationTime := m_evaluationTime w; m_reaped := m_reaped w;
     m_startPosition := m_startPosition w; m_index := m_index w;
     m_legUpdateAccumulator := a |}.

(** ** The example's state and the monad of its member functions *)

Inductive Message :=
| MsgBestWalker (meters : btScalar)
| MsgNotDeterministic
| MsgReaped (count : Z)
| MsgSown (count : Z)
| MsgNewGeneration
| MsgEvaluationStarted (time : btScalar)
| MsgEvaluationFinished (time distance : btScalar).

Record State := {
  m_SimulationTime : btScalar;
  m_bestWalkerFitness : btScalar;
  m_walkersInEvaluation : Z;
  m_nextReapedIndex : Z;
  m_walkersInPopulation : list NNWalker;
  m_rebuildWorld : bool;
  gWalkerMotorStrength : btScalar;
  gWalkerLegTargetFrequency : btScalar;
  gParallelEvaluations : btScalar;
  randCalls : nat;             (* calls of rand() made so far *)
  console : list Message       (* lines printed by b3Printf, newest first *)
}.

Inductive Fault :=
| NullPointer     (* a NULL walker pointer is dereferenced *)
| OutOfBounds     (* the population array is indexed outside its size *)
| OutOfFuel.      (* a loop exceeds the iteration budget of the model *)

Inductive Result (A : Type) :=
| Ok (a : A)
| Failed (f : Fault).
Arguments Ok {A} a.
Arguments Failed {A} f.

Definition M (A : Type) : Type := State -> Result (A * State).

#[global] Instance M_ret : MRet M := fun A a s => Ok (a, s).
#[global] Instance M_bind : MBind M := fun A B f m s =>
  match m s with
  | Ok (a, s') => f a s'
  | Failed e => Failed e
  end.

Definition fail {A} (e : Fault) : M A := fun _ => Failed e.
Definition gets {A} (f : State -> A) : M A := fun s => Ok (f s, s).
Definition modify (f : State -> State) : M unit := fun s => Ok (tt, f s).

Definition withWalkers (v : list NNWalker) (s : State) : State :=
  {| m_SimulationTime := m_SimulationTime s; m_bestWalkerFitness := m_bestWalkerFitness s;
     m_walkersInEvaluation := m_walkersInEvaluation s; m_nextReapedIndex := m_nextReapedIndex s;
     m_walkersInPopulation := v; m_rebuildWorld := m_rebuildWorld s;
     gWalkerMotorStrength := gWalkerMotorStrength s;
     gWalkerLegTargetFrequency := gWalkerLegTargetFrequency s;
     gParallelEvaluations := gParallelEvaluations s;
     randCalls := randCalls s; console := console s |}.
Definition withWalkersInEvaluation (v : Z) (s : State) : State :=
  {| m_SimulationTime := m_SimulationTime s; m_bestWalkerFitness := m_bestWalkerFitness s;
     m_walkersInEvaluation := v; m_nextReapedIndex := m_nextReapedIndex s;
     m_walkersInPopulation := m_walkersInPopulation s; m_rebuildWorld := m_rebuildWorld s;
     gWalkerMotorStrength := gWalkerMotorStrength s;
     gWalkerLegTargetFrequency := gWalkerLegTargetFrequency s;
     gParallelEvaluations := gParallelEvaluations s;
     randCalls := randCalls s; console := console s |}.
Definition withNextReapedIndex (v : Z) (s : State) : State :=
  {| m_SimulationTime := m_SimulationTime s; m_bestWalkerFitness := m_bestWalkerFitness s;
     m_walkersInEvaluation := m_walkersInEvaluation s; m_nextReapedIndex := v;
     m_walkersInPopulation := m_walkersInPopulation s; m_rebuildWorld := m_rebuildWorld s;
     gWalkerMotorStrength := gWalkerMotorStrength s;
     gWalkerLegTargetFrequency := gWalkerLegTargetFrequency s;
     gParallelEvaluations := gParallelEvaluations s;
     randCalls := randCalls s; console := console s |}.
Definition withSimulationTime (v : btScalar) (s : State) : State :=
  {| m_SimulationTime := v; m_bestWalkerFitness := m_bestWalkerFitness s;
     m_walkersInEvaluation := m_walkersInEvaluation s; m_nextReapedIndex := m_nextReapedIndex s;
     m_walkersInPopulation := m_walkersInPopulation s; m_rebuildWorld := m_rebuildWorld s;
     gWalkerMotorStrength := gWalkerMotorStrength s;
     gWalkerLegTargetFrequency := gWalkerLegTargetFrequency s;
     gParallelEvaluations := gParallelEvaluations s;
     randCalls := randCalls s; console := console s |}.
Definition withBestWalkerFitness (v : btScalar) (s : State) : State :=
  {| m_SimulationTime := m_SimulationTime s; m_bestWalkerFitness := v;
     m_walkersInEvaluation := m_walkersInEvaluation s; m_nextReapedIndex := m_nextReapedIndex s;
     m_walkersInPopulation := m_walkersInPopulation s; m_rebuildWorld := m_rebuildWorld s;
     gWalkerMotorStrength := gWalkerMotorStrength s;
     gWalkerLegTargetFrequency := gWalkerLegTargetFrequency s;
     gParallelEvaluations := gParallelEvaluations s;
     randCalls := randCalls s; console := console s |}.
Definition withRebuildWorld (v : bool) (s : State) : State :=
  {| m_SimulationTime := m_SimulationTime s; m_bestWalkerFitness := m_bestWalkerFitness s;
     m_walkersInEvaluation := m_walkersInEvaluation s; m_nextReapedIndex := m_nextReapedIndex s;
     m_walkersInPopulation := m_walkersInPopulation s; m_rebuildWorld := v;
     gWalkerMotorStrength := gWalkerMotorStrength s;
     gWalkerLegTargetFrequency := gWalkerLegTargetFrequency s;
     gParallelEvaluations := gParallelEvaluations s;
     randCalls := randCalls s; console := console s |}.
Definition withRandCalls (v : nat) (s : State) : State :=
  {| m_SimulationTime := m_SimulationTime s; m_bestWalkerFitness := m_bestWalkerFitness s;
     m_walkersInEvaluation := m_walkersInEvaluation s; m_nextReapedIndex := m_nextReapedIndex s;
     m_walkersInPopulation := m_walkersInPopulation s; m_rebuildWorld := m_rebuildWorld s;
     gWalkerMotorStrength := gWalkerMotorStrength s;
     gWalkerLegTargetFrequency := gWalkerLegTargetFrequency s;
     gParallelEvaluations := gParallelEvaluations s;
     randCalls := v; console := console s |}.
Definition withConsole (v : list Message) (s : State) : State :=
  {| m_SimulationTime := m_SimulationTime s; m_bestWalkerFitness := m_bestWalkerFitness s;
     m_walkersInEvaluation := m_walkersInEvaluation s; m_nextReapedIndex := m_nextReapedIndex s;
     m_walkersInPopulation := m_walkersInPopulation s; m_rebuildWorld := m_rebuildWorld s;
     gWalkerMotorStrength := gWalkerMotorStrength s;
     gWalkerLegTargetFrequency := gWalkerLegTargetFrequency s;
     gParallelEvaluations := gParallelEvaluations s;
     randCalls := randCalls s; console := v |}.

Definition withMotorStrength (v : btScalar) (s : State) : State :=
  {| m_SimulationTime := m_SimulationTime s; m_bestWalkerFitness := m_bestWalkerFitness s;
     m_walkersInEvaluation := m_walkersInEvaluation s; m_nextReapedIndex := m_nextReapedIndex s;
     m_walkersInPopulation := m_walkersInPopulation s; m_rebuildWorld := m_rebuildWorld s;
     gWalkerMotorStrength := v;
     gWalkerLegTargetFrequency := gWalkerLegTargetFrequency s;
     gParallelEvaluations := gParallelEvaluations s;
     randCalls := randCalls s; console := console s |}.
Definition withLegTargetFrequency (v : btScalar) (s : State) : State :=
  {| m_SimulationTime := m_SimulationTime s; m_bestWalkerFitness := m_bestWalkerFitness s;
     m_walkersInEvaluation := m_walkersInEvaluation s; m_nextReapedIndex := m_nextReapedIndex s;
     m_walkersInPopulation := m_walkersInPopulation s; m_rebuildWorld := m_rebuildWorld s;
     gWalkerMotorStrength := gWalkerMotorStrength s;
     gWalkerLegTargetFrequency := v;
     gParallelEvaluations := gParallelEvaluations s;
     randCalls := randCalls s; console := console s |}.

Definition b3Printf (msg : Message) : M unit :=
  modify (fun s => withConsole (msg :: console s) s).

(** ** Sample inputs

    A population of fifty idle walkers with all-zero weights, and a C
    library whose [rand()] always returns [0]. *)

Definition sampleHinge : btHingeConstraint :=
  {| m_lowerLimit := F32.of_int (-1); m_upperLimit := F32.of_int 1;
     m_hingeAngle := F32.of_int 0; m_enableAngularMotor := false;
     m_motorTargetVelocity := F32.of_int 0; m_maxMotorImpulse := F32.of_int 0 |}.

Definition sampleWalker (index : Z) : NNWalker :=
  {| m_bodies := replicate (Z.to_nat BODYPART_COUNT) vzero;
     m_joints := replicate (Z.to_nat JOINT_COUNT) sampleHinge;
     m_touchSensors := replicate (Z.to_nat BODYPART_COUNT) false;
     m_sensoryMotorWeights :=
       replicate (Z.to_nat (BODYPART_COUNT * JOINT_COUNT)) (F32.of_int 0);
     m_inEvaluation := false;
     m_evaluationTime := F32.of_int 0;
     m_reaped := false;
     m_startPosition := vzero;
     m_index := index;
     m_legUpdateAccumulator := F32.of_int 0 |}.

(** A walker in evaluation whose body part 3 has just touched the ground. *)
Definition contactWalker : NNWalker :=
  setTouchSensor 3 (setInEvaluation true (sampleWalker 0)).

(** A walker with all weights [1] whose body part 1 touches the ground. *)
Definition crossedWalker : NNWalker :=
  withWeights (replicate (Z.to_nat (BODYPART_COUNT * JOINT_COUNT)) (F32.of_int 1))
    (setTouchSensor 1 (sampleWalker 0)).

Definition sampleState : State :=
  {| m_SimulationTime := F32.of_int 0;
     m_bestWalkerFitness := F32.of_int 0;
     m_walkersInEvaluation := 0;
     m_nextReapedIndex := 0;
     m_walkersInPopulation := sampleWalker <$> seqZ 0 50;
     m_rebuildWorld := false;
     gWalkerMotorStrength := F32.lit 5 10;
     gWalkerLegTargetFrequency := F32.of_int 3;
     gParallelEvaluations := F32.of_int 10;
     randCalls := 0%nat;
     console := [] |}.

Definition sampleRAND_MAX : Z := 2147483647.
Definition sampleRand (n : nat) : Z := 0.
(** A [rand()] of the linear congruential kind. *)
Definition sampleLcg (n : nat) : Z := (Z.of_nat n * 1103515245 + 12345) mod 2147483648.
Definition sampleTanh (x : btScalar) : btScalar := x.
Definition sampleBodies (position : btVector3) : list btVector3 :=
  replicate (Z.to_nat BODYPART_COUNT) position.
Definition sampleJoints : list btHingeConstraint :=
  replicate (Z.to_nat JOINT_COUNT) sampleHinge.

Section Engine.

(** The C library and the physics world, as far as the core uses them. *)
Variable RAND_MAX : Z.
(** [rand_out n] is the value the [n]-th call of [rand()] returns. *)
Variable rand_out : nat -> Z.
Variable tanh : btScalar -> btScalar.
(** Body positions of a walker built (or reset) at a position, and the
    hinges of a freshly built walker. *)
Variable buildBodies : btVector3 -> list btVector3.
Variable buildJoints : list btHingeConstraint.

Definition rand : M Z :=
  fun s => Ok (rand_out (randCalls s), withRandCalls (S (randCalls s)) s).

(** [(double) rand() / (RAND_MAX)] *)
Definition randDouble (r : Z) : spec_float := F64.div (F64.of_int r) (F64.of_int RAND_MAX).
(** [btScalar random = ((double) rand() / (RAND_MAX))] *)
Definition randUnit (r : Z) : btScalar := F32.round (randDouble r).
(** [((double) rand() / (RAND_MAX))*2.0f-1.0f], stored in a [btScalar] *)
Definition randWeight (r : Z) : btScalar :=
  F32.round (F64.sub (F64.mul (randDouble r) (F64.of_int 2)) (F64.of_int 1)).

(** *** Loops *)

(** [for (int i = lo; i < lo + n; i++)] with the locals of the loop in [a]. *)
Fixpoint forM {A} (n : nat) (i : Z) (body : Z -> A -> M A) (a : A) : M A :=
  match n with
  | O => mret a
  | S n' => a' ← body i a; forM n' (i + 1) body a'
  end.

(** [for (int i = ...; cond(i); i = next(i))] whose condition is not an
    integer bound.  Every such loop of the engine indexes the population
    with [i] or consumes one reaped walker per round, so it ends or faults
    within [POPULATION_SIZE] rounds; a loop that would go on is cut with
    [OutOfFuel]. *)
Fixpoint loopM {A} (fuel : nat) (cond : Z -> bool) (next : Z -> Z)
    (body : Z -> A -> M A) (i : Z) (a : A) : M A :=
  if cond i then
    match fuel with
    | O => fail OutOfFuel
    | S fuel' => a' ← body i a; loopM fuel' cond next body (next i) a'
    end
  else mret a.

Definition loopFuel (cfg : Config) : nat := S (Z.to_nat (POPULATION_SIZE cfg)).

(** *** The population array and walker pointers *)

(** [m_walkersInPopulation[i]] *)
Definition walkerAt (i : Z) : M NNWalker := fun s =>
  if i <? 0 then Failed OutOfBounds
  else match m_walkersInPopulation s !! Z.to_nat i with
       | Some w => Ok (w, s)
       | None => Failed OutOfBounds
       end.

Definition setWalkerAt (i : Z) (w : NNWalker) : M unit := fun s =>
  if i <? 0 then Failed OutOfBounds
  else match m_walkersInPopulation s !! Z.to_nat i with
       | Some _ => Ok (tt, withWalkers (<[Z.to_nat i := w]> (m_walkersInPopulation s)) s)
       | None => Failed OutOfBounds
       end.

(** [p->...] for a walker pointer [p]. *)
Definition deref (p : option Z) : M NNWalker :=
  match p with
  | Some i => walkerAt i
  | None => fail NullPointer
  end.

(** [p->method(...)] for a method that only changes the walker. *)
Definition call (p : option Z) (method : NNWalker -> NNWalker) : M unit :=
  match p with
  | Some i => w ← walkerAt i; setWalkerAt i (method w)
  | None => fail NullPointer
  end.

(** *** [NNWalker]: random weights, construction, reset *)

Definition randomizeSensoryMotorWeights (w : NNWalker) : M NNWalker :=
  ws ← forM (Z.to_nat BODYPART_COUNT) 0 (fun i ws =>
          forM (Z.to_nat JOINT_COUNT) 0 (fun j ws =>
            r ← rand;
            mret (aset ws (i + j * BODYPART_COUNT) (randWeight r))) ws)
        (m_sensoryMotorWeights w);
  mret (withWeights ws w).

(** The constructor [NNWalker(index, ownerWorld, startingPosition, ...)]:
    the members it initialises; the sensors are cleared and the weights
    randomized at its end. *)
Definition newNNWalker (index : Z) (startingPosition : btVector3) : M NNWalker :=
  randomizeSensoryMotorWeights
    (clearTouchSensors
      {| m_bodies := buildBodies startingPosition;
         m_joints := buildJoints;
         m_touchSensors := replicate (Z.to_nat BODYPART_COUNT) false;
         m_sensoryMotorWeights :=
           replicate (Z.to_nat (BODYPART_COUNT * JOINT_COUNT)) (F32.of_int 0);
         m_inEvaluation := false;
         m_evaluationTime := F32.of_int 0;
         m_reaped := false;
         m_startPosition := startingPosition;
         m_index := index;
         m_legUpdateAccumulator := F32.of_int 0 |}).

Definition resetAt (position : btVector3) (w : NNWalker) : NNWalker :=
  let w := withJoints
             (foldl (fun joints i =>
                amod joints i (enableAngularMotor false (F32.of_int 0) (F32.of_int 0)))
                (m_joints w) (seqZ 0 JOINT_COUNT)) w in
  let w := withBodies (buildBodies position) w in
  let w := withStartPosition position w in
  let w := setLegUpdateAccumulator (F32.of_int 0) w in
  clearTouchSensors w.

Definition m_resetPosition : btVector3 := vzero.

(** [resetWalkerAt(i, resetPosition)] once the population is filled: the
    slot is never [NULL], so the weights of the walker it holds are copied
    into the new one ([initPhysics] below has the [NULL] case). *)
Definition resetWalkerAt (i : Z) (resetPosition : btVector3) : M unit :=
  newWalker ← newNNWalker i resetPosition;
  old ← walkerAt i;
  setWalkerAt i (copySensoryMotorWeights (getSensoryMotorWeights old) newWalker).

(** *** Rating *)

Definition fitnessComparator (a b : NNWalker) : bool :=
  (getFitness a >? getFitness b)%f32. (* sort walkers descending *)

(** Modelled from the spec: [btAlignedObjectArray::quickSort] is declared
    in [LinearMath/btAlignedObjectArray.h], not in this file.  Section 4.4
    of the specification asks for a sort by the comparator that keeps
    walkers the comparator does not order in their slot order (a stable
    sort): each walker is inserted after the walkers that compare before
    it and before the first walker that does not. *)
Fixpoint quickSortInsert {A} (CompareFunc : A -> A -> bool) (x : A) (l : list A) : list A :=
  match l with
  | [] => [x]
  | y :: l' => if CompareFunc y x then y :: quickSortInsert CompareFunc x l' else x :: l
  end.

Definition quickSort {A} (CompareFunc : A -> A -> bool) (l : list A) : list A :=
  foldr (quickSortInsert CompareFunc) [] l.

Definition rateEvaluations (cfg : Config) : M unit :=
  modify (fun s => withWalkers (quickSort fitnessComparator (m_walkersInPopulation s)) s);;
  best ← walkerAt 0;
  b3Printf (MsgBestWalker (F32.sqrt (getDistanceFitness best)));;
  bestWalkerFitness ← gets m_bestWalkerFitness;
  (* if not all walkers are reaped and the best walker is worse than it
     had been in the previous round *)
  (if F32.neqb (F32.of_int (POPULATION_SIZE cfg - 1) * (F32.of_int 1 - REAP_QTY cfg))%f32
               (F32.of_int 0)
      && (F32.sqrt (getDistanceFitness best) <? bestWalkerFitness)%f32
   then b3Printf MsgNotDeterministic
   else modify (withBestWalkerFitness (F32.sqrt (getDistanceFitness best))));;
  forM (Z.to_nat (POPULATION_SIZE cfg)) 0 (fun i _ => (* reset all walkers *)
    call (Some i) (setEvaluationTime (F32.of_int 0))) tt;;
  modify (withNextReapedIndex 0).

(** *** Reaping *)

(** The loop of [reap]; its result is the local [reaped]. *)
Definition reapLoop (cfg : Config) : M Z :=
  loopM (loopFuel cfg)
    (fun i => (F32.of_int i >=?
               F32.of_int (POPULATION_SIZE cfg - 1) * (F32.of_int 1 - REAP_QTY cfg))%f32)
    Z.pred
    (fun i reaped =>
       call (Some i) (setReaped true);;
       mret (reaped + 1))
    (POPULATION_SIZE cfg - 1) 0.

Definition reap (cfg : Config) : M unit :=
  reaped ← reapLoop cfg;
  b3Printf (MsgReaped reaped).

(** *** Selection *)

(** [rand()/RAND_MAX] is a division of two [int]s. *)
Definition getRandomElite (cfg : Config) : M (option Z) :=
  r ← rand;
  let i := F32.to_int ((F32.of_int (POPULATION_SIZE cfg - 1) * SOW_ELITE_QTY cfg)
                       * F32.of_int (Z.quot r RAND_MAX))%f32 in
  _ ← walkerAt i;
  mret (Some i).

Definition getRandomNonElite (cfg : Config) : M (option Z) :=
  r ← rand;
  let i := F32.to_int (F32.of_int (POPULATION_SIZE cfg - 1) * SOW_ELITE_QTY cfg
                       + F32.of_int (POPULATION_SIZE cfg - 1)
                         * (F32.of_int 1 - SOW_ELITE_QTY cfg)
                         * F32.of_int (Z.quot r RAND_MAX))%f32 in
  _ ← walkerAt i;
  mret (Some i).

Definition getNextReaped (cfg : Config) : M (option Z) :=
  nextReapedIndex ← gets m_nextReapedIndex;
  (if (F32.of_int ((POPULATION_SIZE cfg - 1) - nextReapedIndex) >=?
       F32.of_int (POPULATION_SIZE cfg - 1) * (F32.of_int 1 - REAP_QTY cfg))%f32
   then modify (withNextReapedIndex (nextReapedIndex + 1))
   else mret tt);;
  nextReapedIndex ← gets m_nextReapedIndex;
  w ← walkerAt ((POPULATION_SIZE cfg - 1) - nextReapedIndex + 1);
  if m_reaped w
  then mret (Some ((POPULATION_SIZE cfg - 1) - nextReapedIndex + 1))
  else mret None. (* we asked for too many *)

(** *** Crossover and mutation *)

Definition setWeight (i : Z) (x : btScalar) (w : NNWalker) : NNWalker :=
  withWeights (aset (m_sensoryMotorWeights w) i x) w.

Definition crossover (mother father child : option Z) : M unit :=
  forM (Z.to_nat (BODYPART_COUNT * JOINT_COUNT)) 0 (fun i _ =>
    r ← rand;
    let random := randUnit r in
    if (random >=? F32.lit 5 10)%f32 then
      m ← deref mother;
      call child (setWeight i (aget (F32.of_int 0) (getSensoryMotorWeights m) i))
    else
      f ← deref father;
      call child (setWeight i (aget (F32.of_int 0) (getSensoryMotorWeights f) i))) tt.

Definition mutate (mutant : option Z) (mutationRate : btScalar) : M unit :=
  forM (Z.to_nat (BODYPART_COUNT * JOINT_COUNT)) 0 (fun i _ =>
    r ← rand;
    let random := randUnit r in
    if (random >=? mutationRate)%f32 then
      r' ← rand;
      call mutant (setWeight i (randWeight r'))
    else mret tt) tt.

(** *** Sowing *)

(** The mutation rate [sow] passes for the walker at rank [i]. *)
Definition mutationRateAt (cfg : Config) (i : Z) : btScalar :=
  (MUTATION_RATE cfg / (F32.of_int (POPULATION_SIZE cfg) * SOW_MUTATION_QTY cfg)
   * (F32.of_int i - F32.of_int (POPULATION_SIZE cfg) * SOW_ELITE_QTY cfg))%f32.

(** The three loops of [sow]; the locals [sow] of the first and the last
    are their results. *)
Definition sowCrossover (cfg : Config) : M Z :=
  loopM (loopFuel cfg)
    (fun i => (F32.of_int i <? F32.of_int (POPULATION_SIZE cfg) * SOW_CROSSOVER_QTY cfg)%f32)
    Z.succ
    (fun _ sow =>
       mother ← getRandomElite cfg;
       r ← rand;
       father ← (if (SOW_ELITE_PARTNER cfg <? F32.of_int (Z.quot r RAND_MAX))%f32
                 then getRandomElite cfg else getRandomNonElite cfg);
       offspring ← getNextReaped cfg;
       crossover mother father offspring;;
       mret (sow + 1))
    0 0.

Definition sowMutants (cfg : Config) : M unit :=
  loopM (loopFuel cfg)
    (fun i => (F32.of_int i <?
               F32.of_int (POPULATION_SIZE cfg) * (SOW_ELITE_QTY cfg + SOW_MUTATION_QTY cfg))%f32)
    Z.succ
    (fun i _ =>
       _ ← walkerAt i;
       mutate (Some i) (mutationRateAt cfg i))
    (F32.to_int (F32.of_int (POPULATION_SIZE cfg) * SOW_ELITE_QTY cfg)%f32) tt.

Definition sowRandom (cfg : Config) (sow : Z) : M Z :=
  loopM (loopFuel cfg)
    (fun i => (F32.of_int i <?
               F32.of_int (POPULATION_SIZE cfg - 1) * (REAP_QTY cfg - SOW_CROSSOVER_QTY cfg))%f32)
    Z.succ
    (fun _ sow =>
       reaped ← getNextReaped cfg;
       call reaped (setReaped false);;
       w ← deref reaped;
       w' ← randomizeSensoryMotorWeights w;
       call reaped (fun _ => w');;
       mret (sow + 1))
    0 sow.

Definition sow (cfg : Config) : M unit :=
  sown ← sowCrossover cfg;
  sowMutants cfg;;
  sown ← sowRandom cfg sown;
  b3Printf (MsgSown sown).

(** *** The controller *)

(** The inner loop of the controller: "accumulate sensor inputs with
    weights (summate inputs)" for joint [i]. *)
Definition accumulateSensorInputs (w : NNWalker) (i : Z) : btScalar :=
  foldl (fun targetAngle j =>
           (targetAngle
            + aget (F32.of_int 0) (getSensoryMotorWeights w) (i + j * BODYPART_COUNT)
              * F32.of_int (Z.b2z (getTouchSensor w i)))%f32)
        (F32.of_int 0) (seqZ 0 JOINT_COUNT).

(** The activation function (threshold) [0;1]. *)
Definition activation (targetAngle : btScalar) : btScalar :=
  ((tanh targetAngle + F32.of_int 1) * F32.lit 5 10)%f32.

(** [lowerLimit;upperLimit] *)
Definition targetLimitAngle (hingeC : btHingeConstraint) (targetAngle : btScalar) : btScalar :=
  (m_lowerLimit hingeC + targetAngle * (m_upperLimit hingeC - m_lowerLimit hingeC))%f32.

Definition driveHinge (delta motorStrength targetAngle : btScalar)
    (hingeC : btHingeConstraint) : btHingeConstraint :=
  let currentAngle := m_hingeAngle hingeC in
  let angleError := (targetLimitAngle hingeC targetAngle - currentAngle)%f32 in
  let desiredAngularVel := (* division by zero safety *)
    (angleError / (if (delta >? F32.of_int 0)%f32 then delta else F32.lit 1 10000))%f32 in
  enableAngularMotor true desiredAngularVel motorStrength hingeC.

Definition updateLegs (delta motorStrength : btScalar) (w : NNWalker) : NNWalker :=
  foldl (fun w i =>
           let targetAngle := activation (accumulateSensorInputs w i) in
           withJoints (amod (m_joints w) i (driveHinge delta motorStrength targetAngle)) w)
        w (seqZ 0 (2 * NUM_WALKER_LEGS)).

(** The body of the loop of [updateEvaluations] for one walker. *)
Definition updateEvaluation (delta motorStrength legTargetFrequency : btScalar)
    (w : NNWalker) : NNWalker :=
  if m_inEvaluation w then
    let w := setEvaluationTime (m_evaluationTime w + delta)%f32 w in
    let w := setLegUpdateAccumulator (m_legUpdateAccumulator w + delta)%f32 w in
    let w :=
      if (m_legUpdateAccumulator w >=? F32.of_int 1 / legTargetFrequency)%f32
      then updateLegs delta motorStrength (setLegUpdateAccumulator (F32.of_int 0) w)
      else w in
    clearTouchSensors w (* clear sensor signals after usage *)
  else w.

Definition clampDelta (timeSinceLastTick : btScalar) : btScalar :=
  let minFPS := F32.lit 1 60 in
  if (timeSinceLastTick >? minFPS)%f32 then minFPS else timeSinceLastTick.

Definition updateEvaluations (cfg : Config) (timeSinceLastTick : btScalar) : M unit :=
  let delta := clampDelta timeSinceLastTick in
  modify (fun s => withSimulationTime (m_SimulationTime s + delta)%f32 s);;
  forM (Z.to_nat (POPULATION_SIZE cfg)) 0 (fun r _ => (* evaluation time passes *)
    w ← walkerAt r;
    motorStrength ← gets gWalkerMotorStrength;
    legTargetFrequency ← gets gWalkerLegTargetFrequency;
    setWalkerAt r (updateEvaluation delta motorStrength legTargetFrequency w)) tt.

(** *** The scheduler *)

(** The body of the loop of [scheduleEvaluations] for slot [i]: tear down
    the evaluation if it is finished, set a new one up if there is room. *)
Definition scheduleWalker (cfg : Config) (i : Z) : M unit :=
  w ← walkerAt i;
  (if m_inEvaluation w
      && (m_evaluationTime w >=? F32.of_int (EVALUATION_DURATION cfg))%f32
   then (* tear down evaluations *)
     simulationTime ← gets m_SimulationTime;
     b3Printf (MsgEvaluationFinished simulationTime (F32.sqrt (getDistanceFitness w)));;
     call (Some i) (setInEvaluation false);;
     modify (fun s => withWalkersInEvaluation (m_walkersInEvaluation s - 1) s)
   else mret tt);;
  w ← walkerAt i;
  walkersInEvaluation ← gets m_walkersInEvaluation;
  parallelEvaluations ← gets gParallelEvaluations;
  if (F32.of_int walkersInEvaluation <? parallelEvaluations)%f32
     && negb (m_inEvaluation w)
     && (m_evaluationTime w =? F32.of_int 0)%f32
  then (* setup the new evaluations *)
    simulationTime ← gets m_SimulationTime;
    b3Printf (MsgEvaluationStarted simulationTime);;
    modify (fun s => withWalkersInEvaluation (m_walkersInEvaluation s + 1) s);;
    (if REBUILD_WALKER cfg
     then resetWalkerAt i m_resetPosition (* deletes and recreates the walker *)
     else call (Some i) (resetAt m_resetPosition));;
    call (Some i) (setInEvaluation true)
  else mret tt.

Definition scheduleLoop (cfg : Config) : M unit :=
  forM (Z.to_nat (POPULATION_SIZE cfg)) 0 (fun i _ => scheduleWalker cfg i) tt.

(** The hand-off at the end of a round. *)
Definition newGeneration (cfg : Config) : M unit :=
  (if negb (REBUILD_WALKER cfg) then modify (withRebuildWorld true) else mret tt);;
  rateEvaluations cfg;; (* rate evaluations by sorting them based on their fitness *)
  reap cfg;;            (* reap worst performing walkers *)
  sow cfg;;             (* crossover, mutate and sow new walkers *)
  b3Printf MsgNewGeneration.

Definition scheduleEvaluations (cfg : Config) : M unit :=
  scheduleLoop cfg;;
  walkersInEvaluation ← gets m_walkersInEvaluation;
  if walkersInEvaluation =? 0 (* if there are no more evaluations possible *)
  then newGeneration cfg
  else mret tt.

(** [update], called by the pre-tick callback of the world; drawing the
    ground markings and printing the speed-up are left to the renderer. *)
Definition update (cfg : Config) (timeSinceLastTick : btScalar) : M unit :=
  updateEvaluations cfg timeSinceLastTick;;
  scheduleEvaluations cfg.

(** *** Start-up *)

(** The state the constructor of [NN3DWalkersExample] and the static
    initialisers leave; the number of parallel evaluations is the tunable
    [gParallelEvaluations], [10.0f] in the source. *)
Definition newExample (parallelEvaluations : btScalar) : State :=
  {| m_SimulationTime := F32.of_int 0;
     m_bestWalkerFitness := F32.of_int 0;
     m_walkersInEvaluation := 0;
     m_nextReapedIndex := 0;
     m_walkersInPopulation := [];
     m_rebuildWorld := false;
     gWalkerMotorStrength := F32.lit 5 10;
     gWalkerLegTargetFrequency := F32.of_int 3;
     gParallelEvaluations := parallelEvaluations;
     randCalls := 0%nat;
     console := [] |}.

(** [initPhysics]: sliders, ground and canvas set aside, it sets the motor
    tunables and spawns the walkers.  [numIterations] is the iteration
    count of the constraint solver.  Each slot is [NULL] when
    [resetWalkerAt] fills it, so nothing is copied into the new walker. *)
Definition initPhysics (cfg : Config) (numIterations : Z) : M unit :=
  modify (withSimulationTime (F32.of_int 0));;
  modify (withLegTargetFrequency (F32.of_int 3));; (* Hz *)
  modify (withMotorStrength (F32.lit 5 100 * F32.of_int numIterations)%f32);;
  forM (Z.to_nat (POPULATION_SIZE cfg)) 0 (fun i _ => (* spawn one walker *)
    newWalker ← newNNWalker i m_resetPosition;
    modify (fun s => withWalkers (m_walkersInPopulation s ++ [newWalker]) s)) tt.

(** ** Specification vocabulary *)

(** [wpx F m Q s]: running [m] from [s] ends in a result and a state that
    satisfy [Q]; a fault counts as [F].  With [F := False] this is total
    correctness, with [F := True] partial correctness. *)
Definition wpx {A} (F : Prop) (m : M A) (Q : A -> State -> Prop) (s : State) : Prop :=
  match m s with
  | Ok (a, s') => Q a s'
  | Failed _ => F
  end.

(** The population of a state, at an [int] index. *)
Definition walker (s : State) (i : Z) : option NNWalker :=
  if i <? 0 then None else m_walkersInPopulation s !! Z.to_nat i.

Definition populationSize (s : State) : Z := Z.of_nat (length (m_walkersInPopulation s)).

(** [rand()] returns a value between [0] and [RAND_MAX]. *)
Definition rand_in_range : Prop := forall n, 0 <= rand_out n <= RAND_MAX.

(** [n] applications of the increment of a loop to its start value. *)
Definition nth_index (next : Z -> Z) (i0 : Z) (n : nat) : Z := Nat.iter n next i0.


(** Two populations of the same size whose walkers are related slot by
    slot by [r], and equal at the slots outside [T]. *)
Definition population_rel (r : NNWalker -> NNWalker -> Prop) (T : Z -> Prop)
    (s s' : State) : Prop :=
  populationSize s' = populationSize s /\
  forall i w, walker s i = Some w ->
    exists w', walker s' i = Some w' /\ r w w' /\ (~ T i -> w' = w).

(** What the evolution engine may change of a walker: its weights and its
    [m_reaped] flag. *)
Definition bred (w w' : NNWalker) : Prop :=
  exists ws b, w' = setReaped b (withWeights ws w).

(** What crossover and mutation may change of a walker: its weights. *)
Definition reweighted (w w' : NNWalker) : Prop :=
  exists ws, w' = withWeights ws w.

(** The members of the example other than the population, the reaping
    cursor, the state of [rand()] and the console. *)
Definition globals (s : State) :=
  (m_SimulationTime s, m_bestWalkerFitness s, m_walkersInEvaluation s,
   m_rebuildWorld s, gWalkerMotorStrength s, gWalkerLegTargetFrequency s,
   gParallelEvaluations s).


(** From [s] to [s'] only the population and the state of [rand()] changed. *)
Definition only_population (s s' : State) : Prop :=
  s' = withRandCalls (randCalls s') (withWalkers (m_walkersInPopulation s') s).

(** A walker pointer that can be dereferenced. *)
Definition valid (s : State) (p : option Z) : Prop :=
  exists i, p = Some i /\ is_Some (walker s i).

(** The slot a walker pointer points to. *)
Definition points_to (p : option Z) (i : Z) : Prop := p = Some i.

(** A step that changes the population by [r] inside [T] and nothing else
    but the state of [rand()]. *)
Definition breeds (r : NNWalker -> NNWalker -> Prop) (T : Z -> Prop) (s s' : State) : Prop :=
  only_population s s' /\ population_rel r T s s'.

(** From [s] to [s'] only the state of [rand()] changed. *)
Definition only_rand (s s' : State) : Prop := s' = withRandCalls (randCalls s') s.

(** From [s] to [s'] only the population, the reaping cursor and the state
    of [rand()] changed. *)
Definition only_engine (s s' : State) : Prop :=
  s' = withNextReapedIndex (m_nextReapedIndex s')
         (withRandCalls (randCalls s') (withWalkers (m_walkersInPopulation s') s)).

(** The walkers at the slots from [lo] on are marked, the others are as
    they were. *)
Definition marked_from (lo : Z) (s s' : State) : Prop :=
  forall i w, walker s i = Some w ->
    walker s' i = Some (if lo <=? i then setReaped true w else w).

(** The walker at slot [i] is marked reaped. *)
Definition reaped_at (s : State) (i : Z) : Prop :=
  exists w, walker s i = Some w /\ m_reaped w = true.

(** The number of elite slots: the rank at which [sow] starts to mutate. *)
Definition eliteCount (cfg : Config) : Z :=
  F32.to_int (F32.of_int (POPULATION_SIZE cfg) * SOW_ELITE_QTY cfg)%f32.

(** *** The scheduler *)

(** Walkers under evaluation in a population. *)
Fixpoint evaluating (l : list NNWalker) : Z :=
  match l with
  | [] => 0
  | w :: l' => Z.b2z (m_inEvaluation w) + evaluating l'
  end.

(** An idle walker that has not been evaluated this round: the test
    [!isInEvaluation() && getEvaluationTime() == 0] of the scheduler. *)
Definition isFresh (w : NNWalker) : bool :=
  negb (m_inEvaluation w) && (m_evaluationTime w =? F32.of_int 0)%f32.

(** A walker whose evaluation of this round is over: it is idle and its
    evaluation time has reached the duration. *)
Definition isEvaluated (cfg : Config) (w : NNWalker) : bool :=
  negb (m_inEvaluation w)
  && (m_evaluationTime w >=? F32.of_int (EVALUATION_DURATION cfg))%f32.

(** The test that tears an evaluation down. *)
Definition isFinished (cfg : Config) (w : NNWalker) : bool :=
  m_inEvaluation w
  && (m_evaluationTime w >=? F32.of_int (EVALUATION_DURATION cfg))%f32.

(** Generations announced on the console. *)
Fixpoint generations (msgs : list Message) : Z :=
  match msgs with
  | [] => 0
  | MsgNewGeneration :: msgs' => 1 + generations msgs'
  | _ :: msgs' => generations msgs'
  end.

(** What the physics world changes of a walker between two updates: body
    positions, hinge angles and touch sensors. *)
Definition moved (w w' : NNWalker) : Prop :=
  w' = withTouchSensors (m_touchSensors w') (withJoints (m_joints w') (withBodies (m_bodies w') w)).

Definition world_step (s s' : State) : Prop :=
  s' = withWalkers (m_walkersInPopulation s') s /\
  Forall2 moved (m_walkersInPopulation s) (m_walkersInPopulation s').

(** The states the example goes through from [s0]: pre-tick updates that
    end without a fault, interleaved with steps of the world. *)
Inductive reachable (cfg : Config) (s0 : State) : State -> Prop :=
| reach_start : reachable cfg s0 s0
| reach_update s timeStep s' :
    reachable cfg s0 s -> update cfg timeStep s = Ok (tt, s') -> reachable cfg s0 s'
| reach_world s s' :
    reachable cfg s0 s -> world_step s s' -> reachable cfg s0 s'.

(** The state [initPhysics] leaves: a full population of fresh walkers,
    none in evaluation. *)
Definition started (cfg : Config) (s : State) : Prop :=
  populationSize s = POPULATION_SIZE cfg /\
  m_walkersInEvaluation s = 0 /\
  Forall (fun w => isFresh w = true) (m_walkersInPopulation s).

(** The invariant of the scheduler between two updates. *)
Record scheduled (cfg : Config) (s : State) : Prop := {
  sched_size : populationSize s = POPULATION_SIZE cfg;
  sched_count : m_walkersInEvaluation s = evaluating (m_walkersInPopulation s);
  (* the fresh walkers are the last ones *)
  sched_order : forall i j wi wj,
    walker s i = Some wi -> walker s j = Some wj -> i <= j ->
    isFresh wi = true -> isFresh wj = true;
  (* an idle walker is fresh or has been evaluated *)
  sched_done : forall i w,
    walker s i = Some w -> m_inEvaluation w = false -> isFresh w = false ->
    isEvaluated cfg w = true
}.

(** The evaluation duration is positive. *)
Definition durationPositive (cfg : Config) : Prop :=
  (F32.of_int 0 <? F32.of_int (EVALUATION_DURATION cfg))%f32 = true.

(** The invariant of the scheduling loop when it reaches slot [k]: that of
    the scheduler, and if a fresh walker was passed over then there is no
    room left and no evaluation beyond [k] that could end. *)
Record scanning (cfg : Config) (k : Z) (s : State) : Prop := {
  scan_size : populationSize s = POPULATION_SIZE cfg;
  scan_count : m_walkersInEvaluation s = evaluating (m_walkersInPopulation s);
  scan_order : forall i j wi wj,
    walker s i = Some wi -> walker s j = Some wj -> i <= j ->
    isFresh wi = true -> isFresh wj = true;
  scan_done : forall i w,
    walker s i = Some w -> m_inEvaluation w = false -> isFresh w = false ->
    isEvaluated cfg w = true;
  scan_blocked : forall i wi,
    walker s i = Some wi -> i < k -> isFresh wi = true ->
    (F32.of_int (m_walkersInEvaluation s) <? gParallelEvaluations s)%f32 = false /\
    forall j wj, walker s j = Some wj -> k <= j -> m_inEvaluation wj = false
}.

(** A change of a walker the scheduler cannot see. *)
Definition sameSchedule (cfg : Config) (w w' : NNWalker) : Prop :=
  m_inEvaluation w' = m_inEvaluation w /\ isFresh w' = isFresh w /\
  isEvaluated cfg w' = isEvaluated cfg w.

(** A walker at the start of a round: idle, with no evaluation time. *)
Definition atRoundStart (w : NNWalker) : Prop :=
  m_inEvaluation w = false /\ m_evaluationTime w = F32.of_int 0.

(** *** Start-up *)

(** A configuration as the comments of the source ask for it: the
    fractions add up ([SOW_ELITE_QTY + SOW_MUTATION_QTY + REAP_QTY = 1])
    and there is room for at least one evaluation. *)
Definition wellFormed (cfg : Config) (parallelEvaluations : btScalar) : bool :=
  ((SOW_ELITE_QTY cfg + SOW_MUTATION_QTY cfg + REAP_QTY cfg =? F32.of_int 1)
   && (F32.of_int 0 <? parallelEvaluations))%f32.

(** *** The controller *)

(** Following the specification (section 4.1), to compare with
    [accumulateSensorInputs]: [raw(j) = Σ_sensor W[sensor][j] * S[sensor]],
    with [W[sensor][j]] at [sensor + j*BODYPART_COUNT] as
    [randomizeSensoryMotorWeights] lays the matrix out. *)
Definition specRawActivation (w : NNWalker) (j : Z) : btScalar :=
  foldl (fun raw sensor =>
           (raw
            + aget (F32.of_int 0) (getSensoryMotorWeights w) (sensor + j * BODYPART_COUNT)
              * F32.of_int (Z.b2z (getTouchSensor w sensor)))%f32)
        (F32.of_int 0) (seqZ 0 BODYPART_COUNT).

(** Following the specification (section 4.2, [recordTouch]): a sensor
    bit set by a contact stays set over an update that is not a control
    tick. *)
Definition accumulatesUntilTick (delta motorStrength legTargetFrequency : btScalar)
    (w : NNWalker) (i : Z) : Prop :=
  m_inEvaluation w = true ->
  getTouchSensor w i = true ->
  (m_legUpdateAccumulator w + delta >=? F32.of_int 1 / legTargetFrequency)%f32 = false ->
  getTouchSensor (updateEvaluation delta motorStrength legTargetFrequency w) i = true.

(** A value that is neither a NaN nor an infinity. *)
Definition isFinite (x : btScalar) : bool :=
  match x with
  | S754_zero _ | S754_finite _ _ _ => true
  | _ => false
  end.

(** *** Signs of floating-point values *)

Definition isNonNegative (x : spec_float) : bool :=
  match x with
  | S754_zero _ | S754_finite false _ _ | S754_infinity false => true
  | _ => false
  end.

Definition isFinitePositive (x : spec_float) : bool :=
  match x with
  | S754_finite false _ _ => true
  | _ => false
  end.

(** *** Ranking *)

(** [x] ranks before [y]: it is fitter, or as fit and from a lower slot. *)
Definition ranksBefore (x y : NNWalker) : Prop :=
  fitnessComparator x y = true \/
  (fitnessComparator y x = false /\ m_index x < m_index y).

Definition hasFitness (w : NNWalker) : Prop := getFitness w <> S754_nan.

(** ** The monad and the loops *)

Lemma wpx_ret {A} F (a : A) Q s : Q a s -> wpx F (mret a) Q s.
Proof. intros H. exact H. Qed.

Lemma wpx_bind {A B} F (m : M A) (f : A -> M B) Q s :
  wpx F m (fun a s' => wpx F (f a) Q s') s -> wpx F (m ≫= f) Q s.
Proof.
  unfold wpx, mbind, M_bind. destruct (m s) as [[a s']|e]; auto.
Qed.

Lemma wpx_mono {A} F (m : M A) (Q Q' : A -> State -> Prop) s :
  wpx F m Q s -> (forall a s', Q a s' -> Q' a s') -> wpx F m Q' s.
Proof.
  unfold wpx. destruct (m s) as [[a s']|e]; auto.
Qed.

Lemma wpx_weaken {A} (F : Prop) (m : M A) Q s : wpx False m Q s -> wpx F m Q s.
Proof.
  unfold wpx. destruct (m s) as [[a s']|e]; tauto.
Qed.

Lemma wpx_conj {A} F (m : M A) (Q Q' : A -> State -> Prop) s :
  wpx False m Q s -> wpx F m Q' s -> wpx False m (fun a s' => Q a s' /\ Q' a s') s.
Proof.
  unfold wpx. destruct (m s) as [[a s']|e]; tauto.
Qed.

Lemma wpx_run {A} (m : M A) Q s :
  wpx False m Q s <-> exists a s', m s = Ok (a, s') /\ Q a s'.
Proof.
  unfold wpx. destruct (m s) as [[a s']|e]; split.
  - eauto.
  - intros (a' & s'' & [= <- <-] & H). exact H.
  - tauto.
  - intros (a' & s'' & [=] & _).
Qed.

Lemma wpx_partial {A} (m : M A) (Q : A -> State -> Prop) s a s' :
  wpx True m Q s -> m s = Ok (a, s') -> Q a s'.
Proof. unfold wpx. intros H E. rewrite E in H. exact H. Qed.

Lemma wpx_fail {A} (F : Prop) e (Q : A -> State -> Prop) s : F -> wpx F (fail e) Q s.
Proof. intros H. exact H. Qed.

Lemma wpx_gets {A} F (f : State -> A) Q s : Q (f s) s -> wpx F (gets f) Q s.
Proof. intros H. exact H. Qed.

Lemma wpx_modify F (f : State -> State) Q s : Q tt (f s) -> wpx F (modify f) Q s.
Proof. intros H. exact H. Qed.

Lemma wpx_if {A} F (b : bool) (m1 m2 : M A) Q s :
  (b = true -> wpx F m1 Q s) -> (b = false -> wpx F m2 Q s) ->
  wpx F (if b then m1 else m2) Q s.
Proof. destruct b; auto. Qed.

Lemma wpx_forM {A} F (I : nat -> A -> State -> Prop) n lo (body : Z -> A -> M A) a s :
  I 0%nat a s ->
  (forall k a s, (k < n)%nat -> I k a s -> wpx F (body (lo + Z.of_nat k) a) (I (S k)) s) ->
  wpx F (forM n lo body a) (I n) s.
Proof.
  revert I lo a s. induction n as [|n IH]; intros I lo a s H0 Hstep.
  - exact H0.
  - cbn [forM]. apply wpx_bind.
    eapply wpx_mono.
    + specialize (Hstep 0%nat a s). rewrite Z.add_0_r in Hstep. apply Hstep; [lia | exact H0].
    + intros a' s' H1. cbn beta.
      apply (IH (fun k => I (S k))); [exact H1|].
      intros k a'' s'' Hk HI.
      replace (lo + 1 + Z.of_nat k) with (lo + Z.of_nat (S k)) by lia.
      apply Hstep; [lia | exact HI].
Qed.

(** A loop whose condition holds for exactly the first [n] values of its
    variable runs its body [n] times. *)
Lemma wpx_loopM {A} F (I : nat -> A -> State -> Prop) fuel cond next
    (body : Z -> A -> M A) i0 n a s :
  (n <= fuel)%nat ->
  (forall k, (k < n)%nat -> cond (nth_index next i0 k) = true) ->
  cond (nth_index next i0 n) = false ->
  I 0%nat a s ->
  (forall k a s, (k < n)%nat -> I k a s ->
     wpx F (body (nth_index next i0 k) a) (I (S k)) s) ->
  wpx F (loopM fuel cond next body i0 a) (I n) s.
Proof.
  revert I fuel i0 a s. induction n as [|n IH]; intros I fuel i0 a s Hfuel Hc Hend H0 Hstep.
  - cbn in Hend. destruct fuel; cbn [loopM]; rewrite Hend; exact H0.
  - destruct fuel as [|fuel]; [lia|].
    pose proof (Hc 0%nat ltac:(lia)) as Hc0. cbn in Hc0.
    cbn [loopM]. rewrite Hc0.
    apply wpx_bind. eapply wpx_mono.
    + apply (Hstep 0%nat a s); [lia | exact H0].
    + intros a' s' H1. cbn beta.
      assert (Hshift : forall k, nth_index next (next i0) k = nth_index next i0 (S k)).
      { intros k. unfold nth_index. symmetry. apply Nat.iter_succ_r. }
      apply (IH (fun k => I (S k))).
      * lia.
      * intros k Hk. rewrite Hshift. apply Hc. lia.
      * rewrite Hshift. exact Hend.
      * exact H1.
      * intros k a'' s'' Hk HI. rewrite Hshift. apply Hstep; [lia | exact HI].
Qed.

(** Whatever the number of rounds, an invariant of the body holds when the
    loop ends without a fault. *)
Lemma wpx_loopM_partial {A} (I : A -> State -> Prop) fuel cond next
    (body : Z -> A -> M A) i a s :
  I a s ->
  (forall i a s, I a s -> wpx True (body i a) I s) ->
  wpx True (loopM fuel cond next body i a) I s.
Proof.
  revert i a s. induction fuel as [|fuel IH]; intros i a s H0 Hstep.
  - cbn [loopM]. destruct (cond i); [exact Logic.I | exact H0].
  - cbn [loopM]. destruct (cond i); [|exact H0].
    apply wpx_bind. eapply wpx_mono; [apply Hstep; exact H0|].
    intros a' s' H1. apply IH; assumption.
Qed.

(** ** The population array *)

Lemma walker_Some s i w : walker s i = Some w -> 0 <= i < populationSize s.
Proof.
  unfold walker, populationSize. destruct (Z.ltb_spec i 0); [discriminate|].
  intros Hw. apply lookup_lt_Some in Hw. lia.
Qed.

Lemma walker_is_Some s i : 0 <= i < populationSize s -> is_Some (walker s i).
Proof.
  unfold walker, populationSize. intros H.
  destruct (Z.ltb_spec i 0); [lia|]. apply lookup_lt_is_Some. lia.
Qed.

Lemma walker_withWalkers_insert_eq s l i w :
  0 <= i < Z.of_nat (length l) ->
  walker (withWalkers (<[Z.to_nat i := w]> l) s) i = Some w.
Proof.
  intros H. unfold walker. cbn. destruct (Z.ltb_spec i 0); [lia|].
  apply list_lookup_insert_eq. lia.
Qed.

Lemma walker_withWalkers_insert_ne s i j w :
  0 <= i -> i <> j ->
  walker (withWalkers (<[Z.to_nat i := w]> (m_walkersInPopulation s)) s) j = walker s j.
Proof.
  intros Hi Hne. unfold walker. cbn. destruct (Z.ltb_spec j 0); [reflexivity|].
  apply list_lookup_insert_ne. lia.
Qed.

Lemma populationSize_withWalkers_insert s i w :
  populationSize (withWalkers (<[Z.to_nat i := w]> (m_walkersInPopulation s)) s)
  = populationSize s.
Proof. unfold populationSize. cbn. rewrite length_insert. reflexivity. Qed.

Lemma wpx_walkerAt F i Q s :
  (F \/ is_Some (walker s i)) ->
  (forall w, walker s i = Some w -> Q w s) ->
  wpx F (walkerAt i) Q s.
Proof.
  unfold wpx, walkerAt, walker. intros HF HQ.
  destruct (i <? 0).
  - destruct HF as [HF|[w Hw]]; [exact HF | discriminate].
  - destruct (m_walkersInPopulation s !! Z.to_nat i) as [w|].
    + apply HQ. reflexivity.
    + destruct HF as [HF|[w Hw]]; [exact HF | discriminate].
Qed.

Lemma wpx_setWalkerAt F i w Q s :
  (F \/ is_Some (walker s i)) ->
  (is_Some (walker s i) ->
   Q tt (withWalkers (<[Z.to_nat i := w]> (m_walkersInPopulation s)) s)) ->
  wpx F (setWalkerAt i w) Q s.
Proof.
  unfold wpx, setWalkerAt, walker. intros HF HQ.
  destruct (i <? 0).
  - destruct HF as [HF|[w' Hw]]; [exact HF | discriminate].
  - destruct (m_walkersInPopulation s !! Z.to_nat i) as [w'|].
    + apply HQ. eauto.
    + destruct HF as [HF|[w' Hw]]; [exact HF | discriminate].
Qed.

Lemma wpx_call F i method Q s :
  (F \/ is_Some (walker s i)) ->
  (forall w, walker s i = Some w ->
   Q tt (withWalkers (<[Z.to_nat i := method w]> (m_walkersInPopulation s)) s)) ->
  wpx F (call (Some i) method) Q s.
Proof.
  intros HF HQ. unfold call. apply wpx_bind.
  apply wpx_walkerAt; [exact HF|]. intros w Hw.
  apply wpx_setWalkerAt; [right; eauto|]. intros _. apply HQ. exact Hw.
Qed.

Lemma wpx_deref F i Q s :
  (F \/ is_Some (walker s i)) ->
  (forall w, walker s i = Some w -> Q w s) ->
  wpx F (deref (Some i)) Q s.
Proof. apply wpx_walkerAt. Qed.

Lemma wpx_rand F Q s :
  Q (rand_out (randCalls s)) (withRandCalls (S (randCalls s)) s) -> wpx F rand Q s.
Proof. intros H. exact H. Qed.

Lemma wpx_b3Printf F msg Q s :
  Q tt (withConsole (msg :: console s) s) -> wpx F (b3Printf msg) Q s.
Proof. intros H. exact H. Qed.

(** ** Relations between populations *)

Lemma population_rel_refl r T s :
  (forall w, r w w) -> population_rel r T s s.
Proof. intros Hr. split; [reflexivity|]. intros i w Hw. eauto. Qed.

Lemma population_rel_trans r T s1 s2 s3 :
  (forall a b c, r a b -> r b c -> r a c) ->
  population_rel r T s1 s2 -> population_rel r T s2 s3 -> population_rel r T s1 s3.
Proof.
  intros Hr [L12 H12] [L23 H23]. split; [congruence|].
  intros i w Hw. destruct (H12 i w Hw) as (w2 & Hw2 & R12 & E12).
  destruct (H23 i w2 Hw2) as (w3 & Hw3 & R23 & E23).
  exists w3. split; [exact Hw3|]. split; [eauto|].
  intros HT. rewrite (E23 HT). auto.
Qed.

Lemma population_rel_mono (r r' : NNWalker -> NNWalker -> Prop) (T T' : Z -> Prop) s s' :
  (forall a b, r a b -> r' a b) -> (forall i, T i -> T' i) ->
  population_rel r T s s' -> population_rel r' T' s s'.
Proof.
  intros Hr HT [L H]. split; [exact L|].
  intros i w Hw. destruct (H i w Hw) as (w' & Hw' & R & E).
  exists w'. split; [exact Hw'|]. split; [auto|]. intros N. apply E. auto.
Qed.

(** Writing one walker. *)
Lemma population_rel_insert (r : NNWalker -> NNWalker -> Prop) (T : Z -> Prop) s i w w' :
  (forall a, r a a) -> walker s i = Some w -> r w w' -> T i ->
  population_rel r T s (withWalkers (<[Z.to_nat i := w']> (m_walkersInPopulation s)) s).
Proof.
  intros Hr Hw Rw Ti. pose proof (walker_Some _ _ _ Hw) as Hi.
  split; [apply populationSize_withWalkers_insert|].
  intros j v Hv. destruct (decide (i = j)) as [<-|Hne].
  - exists w'. rewrite walker_withWalkers_insert_eq by (unfold populationSize in Hi; lia).
    split; [reflexivity|]. split; [congruence|]. tauto.
  - exists v. rewrite walker_withWalkers_insert_ne by lia. auto.
Qed.

Lemma bred_refl w : bred w w.
Proof. exists (m_sensoryMotorWeights w), (m_reaped w). destruct w; reflexivity. Qed.

Lemma bred_trans a b c : bred a b -> bred b c -> bred a c.
Proof.
  intros (ws1 & b1 & ->) (ws2 & b2 & ->). exists ws2, b2. reflexivity.
Qed.

Lemma reweighted_refl w : reweighted w w.
Proof. exists (m_sensoryMotorWeights w). destruct w; reflexivity. Qed.

Lemma reweighted_trans a b c : reweighted a b -> reweighted b c -> reweighted a c.
Proof. intros (ws1 & ->) (ws2 & ->). exists ws2. reflexivity. Qed.

Lemma reweighted_bred a b : reweighted a b -> bred a b.
Proof. intros (ws & ->). exists ws, (m_reaped a). destruct a; reflexivity. Qed.

Lemma only_population_refl s : only_population s s.
Proof. unfold only_population. destruct s; reflexivity. Qed.

Lemma only_population_trans s1 s2 s3 :
  only_population s1 s2 -> only_population s2 s3 -> only_population s1 s3.
Proof.
  unfold only_population. intros H12 H23. rewrite H23 at 1. rewrite H12 at 1.
  destruct s1; reflexivity.
Qed.

Lemma population_rel_is_Some r T s s' i :
  population_rel r T s s' -> is_Some (walker s i) -> is_Some (walker s' i).
Proof. intros [_ H] [w Hw]. destruct (H i w Hw) as (w' & Hw' & _). eauto. Qed.

Lemma population_rel_valid r T s s' p :
  population_rel r T s s' -> valid s p -> valid s' p.
Proof.
  intros H (i & -> & Hi). exists i. split; [reflexivity|].
  eapply population_rel_is_Some; eauto.
Qed.

Lemma breeds_refl r T s : (forall w, r w w) -> breeds r T s s.
Proof. intros Hr. split; [apply only_population_refl | apply population_rel_refl, Hr]. Qed.

Lemma breeds_trans r T s1 s2 s3 :
  (forall a b c, r a b -> r b c -> r a c) ->
  breeds r T s1 s2 -> breeds r T s2 s3 -> breeds r T s1 s3.
Proof.
  intros Hr [O12 P12] [O23 P23]. split.
  - eapply only_population_trans; eauto.
  - eapply population_rel_trans; eauto.
Qed.

Lemma breeds_rand r T s :
  (forall w, r w w) -> breeds r T s (withRandCalls (S (randCalls s)) s).
Proof.
  intros Hr. split.
  - unfold only_population. destruct s; reflexivity.
  - split; [reflexivity|]. intros i w Hw. exists w. auto.
Qed.

Lemma breeds_insert (r : NNWalker -> NNWalker -> Prop) (T : Z -> Prop) s i w w' :
  (forall a, r a a) -> walker s i = Some w -> r w w' -> T i ->
  breeds r T s (withWalkers (<[Z.to_nat i := w']> (m_walkersInPopulation s)) s).
Proof.
  intros Hr Hw Rw Ti. split.
  - unfold only_population. destruct s; reflexivity.
  - eapply population_rel_insert; eauto.
Qed.

(** ** Crossover and mutation change the weights of one walker *)

Lemma crossover_spec F mother father child s :
  (F \/ (valid s mother /\ valid s father /\ valid s child)) ->
  wpx F (crossover mother father child)
      (fun _ s' => breeds reweighted (points_to child) s s') s.
Proof.
  intros HF. unfold crossover.
  eapply wpx_mono.
  - apply (wpx_forM F (fun _ _ s' => breeds reweighted (points_to child) s s')).
    + apply breeds_refl, reweighted_refl.
    + intros k [] s1 _ Hs1.
      assert (HF1 : F \/ (valid s1 mother /\ valid s1 father /\ valid s1 child)).
      { destruct HF as [HF|(Hm & Hf & Hc)]; [left; exact HF|right].
        destruct Hs1 as [_ Hp]. repeat split; eapply population_rel_valid; eauto. }
      clear HF. apply wpx_bind, wpx_rand.
      set (s2 := withRandCalls _ s1).
      assert (Hs2 : breeds reweighted (points_to child) s s2).
      { eapply breeds_trans; [apply reweighted_trans | exact Hs1 |].
        apply breeds_rand, reweighted_refl. }
      assert (Hstep : forall parent, (F \/ (valid s2 parent /\ valid s2 child)) ->
        wpx F (p ← deref parent;
               call child (setWeight (0 + Z.of_nat k)
                 (aget (F32.of_int 0) (getSensoryMotorWeights p) (0 + Z.of_nat k))))
            (fun _ s' => breeds reweighted (points_to child) s s') s2).
      { intros parent HP. apply wpx_bind.
        destruct parent as [pi|]; cycle 1.
        { apply wpx_fail. destruct HP as [HP|[(i & [=] & _) _]]; exact HP. }
        apply wpx_deref.
        { destruct HP as [HP|[(i & [= <-] & Hi) _]]; [left|right]; assumption. }
        intros pw Hpw.
        destruct child as [ci|]; cycle 1.
        { apply wpx_fail. destruct HP as [HP|[_ (i & [=] & _)]]; exact HP. }
        apply wpx_call.
        { destruct HP as [HP|[_ (i & [= <-] & Hi)]]; [left|right]; assumption. }
        intros cw Hcw.
        eapply breeds_trans; [apply reweighted_trans | exact Hs2 |].
        eapply breeds_insert; [apply reweighted_refl | exact Hcw | | reflexivity].
        eexists. reflexivity. }
      apply wpx_if; intros _; apply Hstep.
      * destruct HF1 as [HF1|(Hm & Hf & Hc)]; [left; exact HF1|right]. split; assumption.
      * destruct HF1 as [HF1|(Hm & Hf & Hc)]; [left; exact HF1|right]. split; assumption.
  - intros [] s' H. exact H.
Qed.

Lemma mutate_spec F mutant mutationRate s :
  (F \/ valid s mutant) ->
  wpx F (mutate mutant mutationRate)
      (fun _ s' => breeds reweighted (points_to mutant) s s') s.
Proof.
  intros HF. unfold mutate.
  eapply wpx_mono.
  - apply (wpx_forM F (fun _ _ s' => breeds reweighted (points_to mutant) s s')).
    + apply breeds_refl, reweighted_refl.
    + intros k [] s1 _ Hs1.
      assert (HF1 : F \/ valid s1 mutant).
      { destruct HF as [HF|Hm]; [left; exact HF|right].
        destruct Hs1 as [_ Hp]. eapply population_rel_valid; eauto. }
      clear HF. apply wpx_bind, wpx_rand.
      set (s2 := withRandCalls _ s1).
      assert (Hs2 : breeds reweighted (points_to mutant) s s2).
      { eapply breeds_trans; [apply reweighted_trans | exact Hs1 |].
        apply breeds_rand, reweighted_refl. }
      apply wpx_if; intros _; [|apply wpx_ret; exact Hs2].
      apply wpx_bind, wpx_rand.
      set (s3 := withRandCalls _ s2).
      assert (Hs3 : breeds reweighted (points_to mutant) s s3).
      { eapply breeds_trans; [apply reweighted_trans | exact Hs2 |].
        apply breeds_rand, reweighted_refl. }
      destruct mutant as [mi|]; cycle 1.
      { apply wpx_fail. destruct HF1 as [HF1|(i & [=] & _)]; exact HF1. }
      apply wpx_call.
      { destruct HF1 as [HF1|(i & [= <-] & Hi)]; [left|right]; assumption. }
      intros cw Hcw.
      eapply breeds_trans; [apply reweighted_trans | exact Hs3 |].
      eapply breeds_insert; [apply reweighted_refl | exact Hcw | | reflexivity].
      eexists. reflexivity.
  - intros [] s' H. exact H.
Qed.

Lemma only_rand_refl s : only_rand s s.
Proof. unfold only_rand. destruct s; reflexivity. Qed.

Lemma only_rand_trans s1 s2 s3 : only_rand s1 s2 -> only_rand s2 s3 -> only_rand s1 s3.
Proof.
  unfold only_rand. intros H12 H23. rewrite H23 at 1. rewrite H12 at 1.
  destruct s1; reflexivity.
Qed.

Lemma only_rand_step s : only_rand s (withRandCalls (S (randCalls s)) s).
Proof. unfold only_rand. destruct s; reflexivity. Qed.

Lemma only_engine_refl s : only_engine s s.
Proof. unfold only_engine. destruct s; reflexivity. Qed.

Lemma only_engine_trans s1 s2 s3 :
  only_engine s1 s2 -> only_engine s2 s3 -> only_engine s1 s3.
Proof.
  unfold only_engine. intros H12 H23. rewrite H23 at 1. rewrite H12 at 1.
  destruct s1; reflexivity.
Qed.

Lemma only_population_engine s s' : only_population s s' -> only_engine s s'.
Proof.
  unfold only_population, only_engine. intros H. rewrite H at 1.
  rewrite H. destruct s; reflexivity.
Qed.

Lemma only_rand_engine s s' : only_rand s s' -> only_engine s s'.
Proof.
  unfold only_rand, only_engine. intros H. rewrite H at 1.
  rewrite H. destruct s; reflexivity.
Qed.

Lemma randomizeSensoryMotorWeights_spec F w s :
  wpx F (randomizeSensoryMotorWeights w)
      (fun w' s' => reweighted w w' /\ only_rand s s') s.
Proof.
  unfold randomizeSensoryMotorWeights. apply wpx_bind.
  eapply wpx_mono.
  - apply (wpx_forM F (fun _ _ s' => only_rand s s')); [apply only_rand_refl|].
    intros k ws s1 _ Hs1. eapply wpx_mono.
    + apply (wpx_forM F (fun _ _ s' => only_rand s s')); [exact Hs1|].
      intros k' ws' s2 _ Hs2. apply wpx_bind, wpx_rand, wpx_ret.
      eapply only_rand_trans; [exact Hs2 | apply only_rand_step].
    + intros a s' H. exact H.
  - intros ws s' H. apply wpx_ret. split; [eexists; reflexivity | exact H].
Qed.

(** ** Loop bounds *)

Lemma nth_index_succ i0 k : nth_index Z.succ i0 k = i0 + Z.of_nat k.
Proof.
  unfold nth_index. induction k as [|k IH]; [cbn; lia|].
  rewrite Nat.iter_succ, IH. lia.
Qed.

Lemma nth_index_pred i0 k : nth_index Z.pred i0 k = i0 - Z.of_nat k.
Proof.
  unfold nth_index. induction k as [|k IH]; [cbn; lia|].
  rewrite Nat.iter_succ, IH. lia.
Qed.

Lemma forallb_below (P : nat -> bool) n :
  forallb P (seq 0 n) = true -> forall k, (k < n)%nat -> P k = true.
Proof.
  intros H k Hk. rewrite forallb_forall in H. apply H. apply in_seq. lia.
Qed.

(** ** Reaping under the default parameters *)

Lemma reapLoop_default s :
  populationSize s = 50 ->
  wpx False (reapLoop defaultConfig)
      (fun reaped s' =>
         reaped = 15 /\ s' = withWalkers (m_walkersInPopulation s') s /\
         populationSize s' = 50 /\ marked_from 35 s s') s.
Proof.
  intros Hsize. unfold reapLoop.
  eapply wpx_mono.
  - apply (wpx_loopM False
      (fun k reaped s' =>
         reaped = Z.of_nat k /\ s' = withWalkers (m_walkersInPopulation s') s /\
         populationSize s' = 50 /\ marked_from (50 - Z.of_nat k) s s')
      _ _ _ _ _ 15%nat).
    + unfold loopFuel. cbn [POPULATION_SIZE defaultConfig]. lia.
    + apply (forallb_below (fun k => _)). vm_compute. reflexivity.
    + vm_compute. reflexivity.
    + split; [reflexivity|]. split; [destruct s; reflexivity|]. split; [exact Hsize|].
      intros i w Hw. pose proof (walker_Some _ _ _ Hw).
      destruct (Z.leb_spec (50 - Z.of_nat 0) i); [lia | exact Hw].
    + intros k reaped s1 Hk (-> & Hframe & Hsz & Hmark).
      rewrite nth_index_pred. change (POPULATION_SIZE defaultConfig - 1) with 49.
      assert (Hin : is_Some (walker s (49 - Z.of_nat k))).
      { apply walker_is_Some. lia. }
      destruct Hin as [w0 Hw0].
      pose proof (Hmark _ _ Hw0) as Hw1.
      destruct (Z.leb_spec (50 - Z.of_nat k) (49 - Z.of_nat k)); [lia|].
      apply wpx_bind, wpx_call; [right; eauto|].
      intros w Hw. apply wpx_ret.
      rewrite Hw1 in Hw. injection Hw as <-.
      split; [lia|]. split.
      { rewrite Hframe at 2. destruct s; reflexivity. }
      split; [rewrite populationSize_withWalkers_insert; exact Hsz|].
      intros i v Hv. specialize (Hmark i v Hv).
      destruct (decide (49 - Z.of_nat k = i)) as [<-|Hne].
      * rewrite walker_withWalkers_insert_eq by (unfold populationSize in Hsz; lia).
        destruct (Z.leb_spec (50 - Z.of_nat (S k)) (49 - Z.of_nat k)); [|lia].
        congruence.
      * rewrite walker_withWalkers_insert_ne by lia. rewrite Hmark.
        destruct (Z.leb_spec (50 - Z.of_nat k) i), (Z.leb_spec (50 - Z.of_nat (S k)) i);
          (reflexivity || lia).
  - intros reaped s' (-> & Hframe & Hsz & Hmark). auto.
Qed.

(** ** Sowing under the default parameters *)

Lemma only_engine_rand s n : only_engine s (withRandCalls n s).
Proof. unfold only_engine. destruct s; reflexivity. Qed.

Lemma only_engine_next s k : only_engine s (withNextReapedIndex k s).
Proof. unfold only_engine. destruct s; reflexivity. Qed.

Lemma only_engine_walkers s l : only_engine s (withWalkers l s).
Proof. unfold only_engine. destruct s; reflexivity. Qed.

Lemma population_rel_same r T s s' :
  (forall w, r w w) -> m_walkersInPopulation s' = m_walkersInPopulation s ->
  population_rel r T s s'.
Proof.
  intros Hr E. split.
  - unfold populationSize. rewrite E. reflexivity.
  - intros i w Hw. exists w. unfold walker in *. rewrite E. auto.
Qed.

Lemma reaped_at_rel T s s' i :
  population_rel reweighted T s s' -> reaped_at s i -> reaped_at s' i.
Proof.
  intros [_ H] (w & Hw & Hr). destruct (H i w Hw) as (w' & Hw' & (ws & ->) & _).
  exists (withWeights ws w). split; [exact Hw' | exact Hr].
Qed.

Lemma quot_RAND_MAX r :
  0 < RAND_MAX -> 0 <= r <= RAND_MAX -> Z.quot r RAND_MAX = 0 \/ Z.quot r RAND_MAX = 1.
Proof.
  intros Hpos Hr. destruct (decide (r = RAND_MAX)) as [->|Hne].
  - right. apply Z.quot_same. lia.
  - left. apply Z.quot_small. lia.
Qed.

Lemma getRandomElite_default s :
  rand_in_range -> 0 < RAND_MAX -> populationSize s = 50 ->
  wpx False (getRandomElite defaultConfig)
      (fun p s' => (p = Some 0 \/ p = Some 9) /\ s' = withRandCalls (S (randCalls s)) s) s.
Proof.
  intros Hrand Hpos Hsize. unfold getRandomElite.
  apply wpx_bind, wpx_rand.
  destruct (quot_RAND_MAX (rand_out (randCalls s)) Hpos (Hrand _)) as [-> | ->].
  - apply wpx_bind, wpx_walkerAt.
    + right. apply walker_is_Some. change (populationSize _) with (populationSize s).
      vm_compute F32.to_int. lia.
    + intros w _. apply wpx_ret. split; [left; reflexivity | reflexivity].
  - apply wpx_bind, wpx_walkerAt.
    + right. apply walker_is_Some. change (populationSize _) with (populationSize s).
      vm_compute F32.to_int. lia.
    + intros w _. apply wpx_ret. split; [right; reflexivity | reflexivity].
Qed.

Lemma getRandomNonElite_default s :
  rand_in_range -> 0 < RAND_MAX -> populationSize s = 50 ->
  wpx False (getRandomNonElite defaultConfig)
      (fun p s' => (p = Some 9 \/ p = Some 49) /\ s' = withRandCalls (S (randCalls s)) s) s.
Proof.
  intros Hrand Hpos Hsize. unfold getRandomNonElite.
  apply wpx_bind, wpx_rand.
  destruct (quot_RAND_MAX (rand_out (randCalls s)) Hpos (Hrand _)) as [-> | ->].
  - apply wpx_bind, wpx_walkerAt.
    + right. apply walker_is_Some. change (populationSize _) with (populationSize s).
      vm_compute F32.to_int. lia.
    + intros w _. apply wpx_ret. split; [left; reflexivity | reflexivity].
  - apply wpx_bind, wpx_walkerAt.
    + right. apply walker_is_Some. change (populationSize _) with (populationSize s).
      vm_compute F32.to_int. lia.
    + intros w _. apply wpx_ret. split; [right; reflexivity | reflexivity].
Qed.

Lemma getNextReaped_default s k :
  m_nextReapedIndex s = k -> 0 <= k < 15 -> reaped_at s (49 - k) ->
  wpx False (getNextReaped defaultConfig)
      (fun p s' => p = Some (49 - k) /\ s' = withNextReapedIndex (k + 1) s) s.
Proof.
  intros Hk Hrange (w & Hw & Hr). unfold getNextReaped.
  apply wpx_bind, wpx_gets. rewrite Hk.
  assert (Hc : forall j, (j < 15)%nat ->
    (F32.of_int ((POPULATION_SIZE defaultConfig - 1) - Z.of_nat j) >=?
     F32.of_int (POPULATION_SIZE defaultConfig - 1) * (F32.of_int 1 - REAP_QTY defaultConfig))%f32
    = true).
  { apply (forallb_below (fun j => _)). vm_compute. reflexivity. }
  specialize (Hc (Z.to_nat k) ltac:(lia)). rewrite Z2Nat.id in Hc by lia. rewrite Hc.
  apply wpx_bind, wpx_modify, wpx_bind, wpx_gets. cbn [m_nextReapedIndex withNextReapedIndex].
  change (POPULATION_SIZE defaultConfig - 1) with 49.
  replace (49 - (k + 1) + 1) with (49 - k) by lia.
  apply wpx_bind, wpx_walkerAt; [right; exists w; exact Hw|].
  intros w' Hw'. change (walker s (49 - k) = Some w') in Hw'.
  rewrite Hw in Hw'. injection Hw' as <-. rewrite Hr.
  apply wpx_ret. split; reflexivity.
Qed.

Lemma sowCrossover_default s :
  rand_in_range -> 0 < RAND_MAX ->
  populationSize s = 50 -> m_nextReapedIndex s = 0 ->
  (forall i, 35 <= i < 50 -> reaped_at s i) ->
  wpx False (sowCrossover defaultConfig)
      (fun sown s' =>
         sown = 10 /\ m_nextReapedIndex s' = 10 /\ only_engine s s' /\
         population_rel reweighted (fun i => 40 <= i) s s') s.
Proof.
  intros Hrand Hpos Hsize Hnext Hreaped. unfold sowCrossover.
  eapply wpx_mono.
  - apply (wpx_loopM False
      (fun k sown s' =>
         sown = Z.of_nat k /\ m_nextReapedIndex s' = Z.of_nat k /\ only_engine s s' /\
         population_rel reweighted (fun i => 40 <= i) s s')
      _ _ _ _ _ 10%nat).
    + unfold loopFuel. cbn [POPULATION_SIZE defaultConfig]. lia.
    + apply (forallb_below (fun k => _)). vm_compute. reflexivity.
    + vm_compute. reflexivity.
    + split; [reflexivity|]. split; [exact Hnext|]. split; [apply only_engine_refl|].
      apply population_rel_refl, reweighted_refl.
    + intros k sown s1 Hk (-> & Hn1 & He1 & Hp1).
      assert (Hsz1 : populationSize s1 = 50) by (destruct Hp1 as [L _]; congruence).
      apply wpx_bind. eapply wpx_mono; [apply getRandomElite_default; assumption|].
      intros mother s2 (Hmother & ->). cbn beta.
      apply wpx_bind, wpx_rand.
      set (s3 := withRandCalls _ (withRandCalls _ s1)).
      assert (Hsz3 : populationSize s3 = 50) by exact Hsz1.
      apply wpx_bind.
      apply (wpx_mono _ _ (fun father s' =>
               (father = Some 0 \/ father = Some 9 \/ father = Some 49) /\
               s' = withRandCalls (S (randCalls s3)) s3)).
      { apply wpx_if; intros _.
        - eapply wpx_mono; [apply getRandomElite_default; assumption|].
          intros f s' ([->| ->] & ->); auto.
        - eapply wpx_mono; [apply getRandomNonElite_default; assumption|].
          intros f s' ([->| ->] & ->); auto. }
      intros father s4 (Hfather & ->). cbn beta.
      set (s4 := withRandCalls _ s3).
      apply wpx_bind. eapply wpx_mono.
      { apply (getNextReaped_default s4 (Z.of_nat k)); [exact Hn1 | lia |].
        change (reaped_at s1 (49 - Z.of_nat k)).
        eapply reaped_at_rel; [exact Hp1 | apply Hreaped; lia]. }
      intros offspring s5 (-> & ->). cbn beta.
      set (s5 := withNextReapedIndex _ s4).
      assert (Hvalid : forall j, 0 <= j < 50 -> valid s5 (Some j)).
      { intros j Hj. exists j. split; [reflexivity|].
        apply walker_is_Some. change (populationSize s5) with (populationSize s1). lia. }
      apply wpx_bind. eapply wpx_mono.
      { apply crossover_spec. right. split; [|split].
        - destruct Hmother as [-> | ->]; apply Hvalid; lia.
        - destruct Hfather as [-> | [-> | ->]]; apply Hvalid; lia.
        - apply Hvalid. lia. }
      intros [] s6 [Ho6 Hp6]. cbn beta. apply wpx_ret.
      split; [lia|]. split.
      { rewrite Ho6. cbn. lia. }
      split.
      { eapply only_engine_trans; [exact He1|].
        eapply only_engine_trans; [|apply only_population_engine; exact Ho6].
        unfold only_engine. subst s5 s4 s3. destruct s1; reflexivity. }
      eapply population_rel_trans; [apply reweighted_trans | exact Hp1 |].
      eapply population_rel_trans; [apply reweighted_trans | |].
      { apply (population_rel_same reweighted (fun i => 40 <= i) s1 s5);
          [apply reweighted_refl | reflexivity]. }
      eapply population_rel_mono; [| |exact Hp6]; [auto|].
      intros j [= <-]. lia.
  - intros sown s' (-> & H). exact (conj eq_refl H).
Qed.

Lemma sowMutants_default s :
  populationSize s = 50 ->
  wpx False (sowMutants defaultConfig)
      (fun _ s' => breeds reweighted (fun i => 10 <= i < 35) s s') s.
Proof.
  intros Hsize. unfold sowMutants.
  replace (F32.to_int _) with 10 by (vm_compute; reflexivity).
  eapply wpx_mono.
  - apply (wpx_loopM False
      (fun _ _ s' => breeds reweighted (fun i => 10 <= i < 35) s s')
      _ _ _ _ _ 25%nat).
    + unfold loopFuel. cbn [POPULATION_SIZE defaultConfig]. lia.
    + apply (forallb_below (fun k => _)). vm_compute. reflexivity.
    + vm_compute. reflexivity.
    + apply breeds_refl, reweighted_refl.
    + intros k [] s1 Hk Hs1. rewrite nth_index_succ.
      assert (Hin : is_Some (walker s1 (10 + Z.of_nat k))).
      { apply walker_is_Some. destruct Hs1 as [_ [L _]]. lia. }
      apply wpx_bind, wpx_walkerAt; [right; exact Hin|]. intros w _.
      eapply wpx_mono.
      { apply mutate_spec. right. exists (10 + Z.of_nat k). auto. }
      intros [] s2 Hs2. cbn beta.
      eapply breeds_trans; [apply reweighted_trans | exact Hs1 |].
      destruct Hs2 as [O2 P2]. split; [exact O2|].
      eapply population_rel_mono; [| |exact P2]; [auto|].
      intros j [= <-]. lia.
  - intros [] s' H. exact H.
Qed.

Lemma sowRandom_default s sown0 :
  populationSize s = 50 -> m_nextReapedIndex s = 10 ->
  (forall i, 35 <= i < 40 -> reaped_at s i) ->
  wpx False (sowRandom defaultConfig sown0)
      (fun sown s' =>
         sown = sown0 + 5 /\ m_nextReapedIndex s' = 15 /\ only_engine s s' /\
         population_rel bred (fun i => 35 <= i < 40) s s') s.
Proof.
  intros Hsize Hnext Hreaped. unfold sowRandom.
  eapply wpx_mono.
  - apply (wpx_loopM False
      (fun k sown s' =>
         sown = sown0 + Z.of_nat k /\ m_nextReapedIndex s' = 10 + Z.of_nat k /\
         only_engine s s' /\
         population_rel bred (fun i => 35 <= i < 40) s s' /\
         (forall i, 35 <= i < 40 - Z.of_nat k -> reaped_at s' i))
      _ _ _ _ _ 5%nat).
    + unfold loopFuel. cbn [POPULATION_SIZE defaultConfig]. lia.
    + apply (forallb_below (fun k => _)). vm_compute. reflexivity.
    + vm_compute. reflexivity.
    + split; [lia|]. split; [lia|]. split; [apply only_engine_refl|].
      split; [apply population_rel_refl, bred_refl|].
      intros i Hi. apply Hreaped. lia.
    + intros k sown s1 Hk (-> & Hn1 & He1 & Hp1 & Hr1).
      assert (Hsz1 : populationSize s1 = 50) by (destruct Hp1 as [L _]; congruence).
      apply wpx_bind. eapply wpx_mono.
      { apply (getNextReaped_default s1 (10 + Z.of_nat k)); [exact Hn1 | lia |].
        replace (49 - (10 + Z.of_nat k)) with (39 - Z.of_nat k) by lia.
        apply Hr1. lia. }
      intros reaped s2 (-> & ->). cbn beta.
      replace (49 - (10 + Z.of_nat k)) with (39 - Z.of_nat k) by lia.
      set (c := 39 - Z.of_nat k).
      set (s2 := withNextReapedIndex _ s1).
      assert (Hin2 : is_Some (walker s2 c)).
      { apply walker_is_Some. change (populationSize s2) with (populationSize s1). lia. }
      apply wpx_bind, wpx_call; [right; exact Hin2|]. intros w2 Hw2.
      set (s3 := withWalkers _ s2).
      assert (Hw3 : walker s3 c = Some (setReaped false w2)).
      { apply walker_withWalkers_insert_eq.
        change (Z.of_nat (length (m_walkersInPopulation s2))) with (populationSize s1). lia. }
      apply wpx_bind, wpx_deref; [right; eauto|]. intros w3 Hw3'.
      rewrite Hw3 in Hw3'. injection Hw3' as <-.
      apply wpx_bind. eapply wpx_mono; [apply randomizeSensoryMotorWeights_spec|].
      intros w4 s4 ((ws & ->) & Hs4). cbn beta.
      assert (Hwalk4 : m_walkersInPopulation s4 = m_walkersInPopulation s3).
      { rewrite Hs4. reflexivity. }
      assert (Hw4 : walker s4 c = Some (setReaped false w2)).
      { unfold walker in *. rewrite Hwalk4. exact Hw3. }
      apply wpx_bind, wpx_call; [right; eauto|]. intros w4' Hw4'.
      rewrite Hw4 in Hw4'. injection Hw4' as <-.
      apply wpx_ret.
      set (s5 := withWalkers _ s4).
      assert (Hstep : population_rel bred (eq c) s1 s5).
      { split.
        - unfold s5. rewrite populationSize_withWalkers_insert.
          unfold populationSize. rewrite Hwalk4. unfold s3. cbn.
          rewrite length_insert. reflexivity.
        - intros j v Hv. destruct (decide (c = j)) as [<-|Hne].
          + exists (withWeights ws (setReaped false w2)). split.
            * apply walker_withWalkers_insert_eq.
              rewrite Hwalk4. unfold s3. cbn. rewrite length_insert.
              change (Z.of_nat (length (m_walkersInPopulation s1))) with (populationSize s1).
              lia.
            * change (walker s1 c = Some w2) in Hw2. rewrite Hw2 in Hv. injection Hv as <-.
              split; [|tauto]. exists ws, false. destruct w2; reflexivity.
          + exists v. split; [|split; [apply bred_refl | reflexivity]].
            unfold s5. rewrite walker_withWalkers_insert_ne by (unfold c; lia).
            unfold walker in *. rewrite Hwalk4. unfold s3.
            cbn [m_walkersInPopulation withWalkers].
            destruct (j <? 0); [exact Hv|].
            rewrite list_lookup_insert_ne by (unfold c in *; lia). exact Hv. }
      split; [lia|]. split.
      { unfold s5. cbn. rewrite Hs4. cbn. lia. }
      split.
      { eapply only_engine_trans; [exact He1|].
        eapply only_engine_trans; [apply (only_engine_next s1 (10 + Z.of_nat k + 1))|].
        eapply only_engine_trans; [apply only_engine_walkers|].
        eapply only_engine_trans; [apply only_rand_engine; exact Hs4|].
        apply only_engine_walkers. }
      split.
      { eapply population_rel_trans; [apply bred_trans | exact Hp1 |].
        eapply population_rel_mono; [| |exact Hstep]; [auto|].
        intros j <-. unfold c. lia. }
      intros i Hi. destruct (Hr1 i ltac:(lia)) as (v & Hv & Hrv).
      destruct Hstep as [_ Hstep]. destruct (Hstep i v Hv) as (v' & Hv' & _ & E).
      rewrite (E ltac:(unfold c; lia)) in Hv'. exists v. auto.
  - intros sown s' (-> & Hn & He & Hp & _). auto.
Qed.

Lemma only_engine_globals s s' :
  only_engine s s' -> globals s' = globals s /\ console s' = console s.
Proof. unfold only_engine. intros ->. split; reflexivity. Qed.

Lemma marked_from_reaped lo s s' i :
  marked_from lo s s' -> 0 <= i -> lo <= i < populationSize s -> reaped_at s' i.
Proof.
  intros H H0 Hi. destruct (walker_is_Some s i ltac:(lia)) as [w Hw].
  exists (setReaped true w). split; [|reflexivity].
  rewrite (H i w Hw). destruct (Z.leb_spec lo i); [reflexivity | lia].
Qed.

Lemma marked_from_below lo s s' i :
  marked_from lo s s' -> i < lo -> populationSize s' = populationSize s ->
  walker s' i = walker s i.
Proof.
  intros H Hi Hsz. destruct (walker s i) as [w|] eqn:Hw.
  - rewrite (H i w Hw). destruct (Z.leb_spec lo i); [lia | reflexivity].
  - destruct (walker s' i) as [w'|] eqn:Hw'; [|reflexivity].
    apply walker_Some in Hw'. rewrite Hsz in Hw'.
    destruct (walker_is_Some s i Hw') as [w Hw'']. congruence.
Qed.

Lemma reap_default s :
  populationSize s = 50 ->
  wpx False (reap defaultConfig)
      (fun _ s' =>
         console s' = MsgReaped 15 :: console s /\
         globals s' = globals s /\ m_nextReapedIndex s' = m_nextReapedIndex s /\
         populationSize s' = 50 /\ marked_from 35 s s') s.
Proof.
  intros Hsize. unfold reap. apply wpx_bind.
  eapply wpx_mono; [apply reapLoop_default; exact Hsize|].
  intros reaped s1 (-> & Hframe & Hsz & Hmark). cbn beta.
  apply wpx_b3Printf. rewrite Hframe. cbn.
  split; [reflexivity|]. split; [reflexivity|]. split; [reflexivity|].
  split; [exact Hsz | exact Hmark].
Qed.

Lemma sow_default s :
  rand_in_range -> 0 < RAND_MAX ->
  populationSize s = 50 -> m_nextReapedIndex s = 0 ->
  (forall i, 35 <= i < 50 -> reaped_at s i) ->
  wpx False (sow defaultConfig)
      (fun _ s' =>
         console s' = MsgSown 15 :: console s /\
         globals s' = globals s /\ m_nextReapedIndex s' = 15 /\
         population_rel bred (fun i => 10 <= i) s s') s.
Proof.
  intros Hrand Hpos Hsize Hnext Hreaped. unfold sow.
  apply wpx_bind. eapply wpx_mono; [apply sowCrossover_default; assumption|].
  intros sown s1 (-> & Hn1 & He1 & Hp1). cbn beta.
  assert (Hsz1 : populationSize s1 = 50) by (destruct Hp1 as [L _]; congruence).
  apply wpx_bind. eapply wpx_mono; [apply sowMutants_default; exact Hsz1|].
  intros [] s2 [Ho2 Hp2]. cbn beta.
  assert (Hsz2 : populationSize s2 = 50) by (destruct Hp2 as [L _]; congruence).
  assert (Hp02 : population_rel reweighted (fun i => 10 <= i) s s2).
  { eapply population_rel_trans; [apply reweighted_trans | |].
    - eapply population_rel_mono; [| |exact Hp1]; [auto|]. cbn. intros; lia.
    - eapply population_rel_mono; [| |exact Hp2]; [auto|]. cbn. intros; lia. }
  apply wpx_bind. eapply wpx_mono.
  { apply (sowRandom_default s2 10); [exact Hsz2| |].
    - rewrite Ho2. cbn. exact Hn1.
    - intros i Hi. eapply reaped_at_rel; [exact Hp02 | apply Hreaped; lia]. }
  intros sown s3 (-> & Hn3 & He3 & Hp3). cbn beta.
  apply wpx_b3Printf.
  pose proof (only_engine_trans _ _ _ He1
                (only_engine_trans _ _ _ (only_population_engine _ _ Ho2) He3)) as He.
  destruct (only_engine_globals _ _ He) as [Hg Hc].
  split; [cbn; rewrite Hc; reflexivity|].
  split; [exact Hg|]. split; [exact Hn3|].
  change (population_rel bred (fun i => 10 <= i) s s3).
  eapply population_rel_trans; [apply bred_trans | |].
  - eapply population_rel_mono; [| |exact Hp02]; [apply reweighted_bred | auto].
  - eapply population_rel_mono; [| |exact Hp3]; [auto|]. cbn. intros; lia.
Qed.

(** One generation step after the ranking: [reap] then [sow]. *)
Lemma reap_sow_default s :
  rand_in_range -> 0 < RAND_MAX ->
  populationSize s = 50 -> m_nextReapedIndex s = 0 ->
  wpx False (reap defaultConfig;; sow defaultConfig)
      (fun _ s' =>
         console s' = MsgSown 15 :: MsgReaped 15 :: console s /\
         globals s' = globals s /\ m_nextReapedIndex s' = 15 /\
         population_rel bred (fun i => 10 <= i) s s') s.
Proof.
  intros Hrand Hpos Hsize Hnext.
  apply wpx_bind. eapply wpx_mono; [apply reap_default; exact Hsize|].
  intros [] s1 (Hc1 & Hg1 & Hn1 & Hsz1 & Hm1). cbn beta.
  eapply wpx_mono.
  { apply sow_default; try assumption; [congruence|].
    intros i Hi. eapply marked_from_reaped; [exact Hm1 | lia | lia]. }
  intros [] s2 (Hc2 & Hg2 & Hn2 & Hp2). cbn beta.
  split; [congruence|]. split; [congruence|]. split; [exact Hn2|].
  eapply population_rel_trans; [apply bred_trans | | exact Hp2].
  split; [congruence|].
  intros i w Hw. exists (if 35 <=? i then setReaped true w else w).
  split; [apply Hm1; exact Hw|].
  destruct (Z.leb_spec 35 i).
  - split; [|lia]. exists (m_sensoryMotorWeights w), true. destruct w; reflexivity.
  - split; [apply bred_refl | reflexivity].
Qed.

(** ** The quotas of a generation under the default parameters *)

(** C7: with the default parameters, for every population at the end of a
    round, the loop of [reap] marks exactly 15 walkers, the slots 35 to 49;
    15 is the ceiling of [(POPULATION_SIZE-1)*REAP_QTY] (whose truncation
    is 14), and the crossover loop that follows runs 10 times, which is
    not more than the reaped count. *)
Theorem reaped_count_default s :
  rand_in_range -> 0 < RAND_MAX ->
  populationSize s = 50 -> m_nextReapedIndex s = 0 ->
  exists reaped s1 sown s2,
    reapLoop defaultConfig s = Ok (reaped, s1) /\
    sowCrossover defaultConfig s1 = Ok (sown, s2) /\
    marked_from 35 s s1 /\
    reaped = 15 /\
    reaped = F32.to_int (F32.of_int (POPULATION_SIZE defaultConfig - 1)
                         * REAP_QTY defaultConfig)%f32 + 1 /\
    sown = 10 /\ sown <= reaped.
Proof.
  intros Hrand Hpos Hsize Hnext.
  pose proof (reapLoop_default s Hsize) as H1. apply wpx_run in H1.
  destruct H1 as (reaped & s1 & E1 & -> & Hframe & Hsz1 & Hmark).
  assert (H2 : wpx False (sowCrossover defaultConfig)
                 (fun sown _ => sown = 10) s1).
  { eapply wpx_mono.
    - apply sowCrossover_default; try assumption.
      + rewrite Hframe. exact Hnext.
      + intros i Hi. eapply marked_from_reaped; [exact Hmark | lia | lia].
    - intros sown s2 (-> & _). reflexivity. }
  apply wpx_run in H2. destruct H2 as (sown & s2 & E2 & ->).
  exists 15, s1, 10, s2. repeat split; try assumption; try lia.
Qed.

(** C10: with the default parameters, [reap] followed by [sow] ends without
    a fault on every population at the end of a round: [sow] asks
    [getNextReaped] for 15 walkers (10 offspring and 5 refills), [reap] has
    marked 15, no call returns [NULL] and no null pointer is dereferenced. *)
Theorem sow_never_asks_too_many s :
  rand_in_range -> 0 < RAND_MAX ->
  populationSize s = 50 -> m_nextReapedIndex s = 0 ->
  exists s',
    (reap defaultConfig;; sow defaultConfig) s = Ok (tt, s') /\
    console s' = MsgSown 15 :: MsgReaped 15 :: console s /\
    m_nextReapedIndex s' = 15.
Proof.
  intros Hrand Hpos Hsize Hnext.
  pose proof (reap_sow_default s Hrand Hpos Hsize Hnext) as H. apply wpx_run in H.
  destruct H as ([] & s' & E & Hc & _ & Hn & _). eauto.
Qed.

(** C8: with the default parameters, the walkers at the elite ranks, below
    [POPULATION_SIZE*SOW_ELITE_QTY = 10], are the same after [reap] and
    [sow] as before, weights and [m_reaped] flag included: [reap] marks
    none of them, and no crossover, mutation or random refill writes into
    one of them. *)
Theorem elite_walkers_untouched s :
  rand_in_range -> 0 < RAND_MAX ->
  populationSize s = 50 -> m_nextReapedIndex s = 0 ->
  exists s1 s2,
    reap defaultConfig s = Ok (tt, s1) /\
    sow defaultConfig s1 = Ok (tt, s2) /\
    forall i, 0 <= i < eliteCount defaultConfig ->
      walker s1 i = walker s i /\ walker s2 i = walker s i.
Proof.
  intros Hrand Hpos Hsize Hnext.
  pose proof (reap_default s Hsize) as H1. apply wpx_run in H1.
  destruct H1 as ([] & s1 & E1 & Hc1 & Hg1 & Hn1 & Hsz1 & Hm1).
  assert (H2 : wpx False (sow defaultConfig)
                 (fun _ s2 => population_rel bred (fun i => 10 <= i) s1 s2) s1).
  { eapply wpx_mono.
    - apply sow_default; try assumption; [congruence|].
      intros i Hi. eapply marked_from_reaped; [exact Hm1 | lia | lia].
    - intros [] s2 (_ & _ & _ & Hp). exact Hp. }
  apply wpx_run in H2. destruct H2 as ([] & s2 & E2 & [_ Hp]).
  exists s1, s2. split; [exact E1|]. split; [exact E2|].
  replace (eliteCount defaultConfig) with 10 by (vm_compute; reflexivity).
  intros i Hi.
  assert (Hs1 : walker s1 i = walker s i).
  { apply (marked_from_below 35); [exact Hm1 | lia | congruence]. }
  split; [exact Hs1|].
  destruct (walker_is_Some s1 i ltac:(lia)) as [w Hw].
  destruct (Hp i w Hw) as (w' & Hw' & _ & E).
  rewrite Hw', E by lia. congruence.
Qed.

(** ** Comparisons of single-precision values *)

Lemma of_int_0 : F32.of_int 0 = S754_zero false.
Proof. reflexivity. Qed.

(** A time that has reached a positive duration is not zero. *)
Lemma reached_not_zero (t d : btScalar) :
  (t >=? d)%f32 = true -> (F32.of_int 0 <? d)%f32 = true ->
  (t =? F32.of_int 0)%f32 = false.
Proof.
  rewrite of_int_0. unfold F32.geb, F32.ltb, F32.eqb, SFleb, SFltb, SFeqb.
  destruct d as [sd|sd| |sd md ed], t as [st|st| |st mt et]; cbn;
    repeat match goal with s : bool |- _ => destruct s end; cbn;
    try discriminate; try reflexivity.
Qed.

(** [int]s up to the default population size compare as their [float]s. *)
Lemma of_int_ltb_small a b :
  0 <= a <= 50 -> 0 <= b <= 50 ->
  (F32.of_int a <? F32.of_int b)%f32 = true -> a < b.
Proof.
  intros Ha Hb.
  assert (H : forall x y, (x < 51)%nat -> (y < 51)%nat ->
            implb (F32.of_int (Z.of_nat x) <? F32.of_int (Z.of_nat y))%f32
                  (Z.of_nat x <? Z.of_nat y) = true).
  { intros x y Hx Hy.
    apply (forallb_below (fun y => implb (F32.of_int (Z.of_nat x) <? F32.of_int (Z.of_nat y))%f32
                                      (Z.of_nat x <? Z.of_nat y)) 51); [|exact Hy].
    revert x Hx. apply (forallb_below (fun x => forallb _ _)). vm_compute. reflexivity. }
  specialize (H (Z.to_nat a) (Z.to_nat b) ltac:(lia) ltac:(lia)).
  rewrite !Z2Nat.id in H by lia. intros E. rewrite E in H. cbn in H. lia.
Qed.

(** ** Counting the walkers under evaluation *)

Lemma evaluating_bounds l : 0 <= evaluating l <= Z.of_nat (length l).
Proof.
  induction l as [|w l IH]; cbn [evaluating length]; [lia|].
  destruct (m_inEvaluation w); cbn; lia.
Qed.

Lemma evaluating_insert l i w w' :
  l !! i = Some w ->
  evaluating (<[i := w']> l)
  = evaluating l - Z.b2z (m_inEvaluation w) + Z.b2z (m_inEvaluation w').
Proof.
  revert i. induction l as [|v l IH]; intros [|i] H; try discriminate.
  - injection H as ->. cbn. lia.
  - cbn in H. change (<[S i := w']> (v :: l)) with (v :: <[i := w']> l).
    cbn [evaluating]. rewrite (IH i H). lia.
Qed.

Lemma evaluating_0 l :
  evaluating l = 0 <-> Forall (fun w => m_inEvaluation w = false) l.
Proof.
  induction l as [|w l IH]; cbn [evaluating].
  - split; [constructor | reflexivity].
  - pose proof (evaluating_bounds l) as Hb. split.
    + intros H. destruct (m_inEvaluation w) eqn:E; cbn in H; [lia|].
      constructor; [exact E | apply IH; lia].
    + intros H. apply Forall_cons in H as [-> H]. apply IH in H. cbn. lia.
Qed.

Lemma evaluating_Forall2 (r : NNWalker -> NNWalker -> Prop) l l' :
  (forall w w', r w w' -> m_inEvaluation w' = m_inEvaluation w) ->
  Forall2 r l l' -> evaluating l' = evaluating l.
Proof.
  intros Hr H. induction H as [|w w' l l' Hw _ IH]; [reflexivity|].
  cbn [evaluating]. rewrite (Hr _ _ Hw), IH. reflexivity.
Qed.

Lemma walker_lookup s i w :
  walker s i = Some w -> m_walkersInPopulation s !! Z.to_nat i = Some w.
Proof. unfold walker. destruct (i <? 0); [discriminate | auto]. Qed.

Lemma lookup_walker s n w :
  m_walkersInPopulation s !! n = Some w -> walker s (Z.of_nat n) = Some w.
Proof.
  unfold walker. destruct (Z.ltb_spec (Z.of_nat n) 0); [lia|].
  rewrite Nat2Z.id. auto.
Qed.

(** A population described slot by slot. *)
Lemma population_fmap (f : Z -> NNWalker -> NNWalker) s s' :
  populationSize s' = populationSize s ->
  (forall i w, walker s i = Some w -> walker s' i = Some (f i w)) ->
  m_walkersInPopulation s'
  = imap (fun n => f (Z.of_nat n)) (m_walkersInPopulation s).
Proof.
  intros Hsz H. apply list_eq. intros n. rewrite list_lookup_imap.
  destruct (m_walkersInPopulation s !! n) as [w|] eqn:E.
  - apply lookup_walker in E. apply H, walker_lookup in E.
    rewrite Nat2Z.id in E. exact E.
  - apply lookup_ge_None in E. apply lookup_ge_None.
    unfold populationSize in Hsz. lia.
Qed.

(** ** Time passes: [updateEvaluations] *)

Lemma updateLegs_joints delta motorStrength w :
  updateLegs delta motorStrength w
  = withJoints (m_joints (updateLegs delta motorStrength w)) w.
Proof.
  unfold updateLegs. generalize (seqZ 0 (2 * NUM_WALKER_LEGS)). intros l.
  assert (H : forall w0, foldl (fun w i =>
              withJoints (amod (m_joints w) i
                (driveHinge delta motorStrength (activation (accumulateSensorInputs w i)))) w)
              w0 l
            = withJoints (m_joints (foldl (fun w i =>
              withJoints (amod (m_joints w) i
                (driveHinge delta motorStrength (activation (accumulateSensorInputs w i)))) w)
              w0 l)) w0).
  { induction l as [|i l IH]; intros w0; cbn [foldl].
    - destruct w0; reflexivity.
    - rewrite IH at 1. destruct w0; reflexivity. }
  apply H.
Qed.

(** An update changes neither the flags nor the weights of a walker, and
    nothing of an idle walker. *)
Lemma updateEvaluation_idle delta motorStrength legTargetFrequency w :
  m_inEvaluation w = false ->
  updateEvaluation delta motorStrength legTargetFrequency w = w.
Proof. unfold updateEvaluation. intros ->. reflexivity. Qed.

Lemma updateEvaluation_inEvaluation delta motorStrength legTargetFrequency w :
  m_inEvaluation (updateEvaluation delta motorStrength legTargetFrequency w)
  = m_inEvaluation w.
Proof.
  unfold updateEvaluation. destruct (m_inEvaluation w) eqn:E; [|exact E].
  cbn. destruct (_ >=? _)%f32; [|exact E].
  rewrite updateLegs_joints. exact E.
Qed.

Lemma updateEvaluations_spec cfg timeSinceLastTick s :
  populationSize s = POPULATION_SIZE cfg ->
  wpx False (updateEvaluations cfg timeSinceLastTick)
      (fun _ s' =>
         s' = withWalkers (m_walkersInPopulation s')
                (withSimulationTime
                   (m_SimulationTime s + clampDelta timeSinceLastTick)%f32 s) /\
         m_walkersInPopulation s'
         = updateEvaluation (clampDelta timeSinceLastTick)
             (gWalkerMotorStrength s) (gWalkerLegTargetFrequency s)
           <$> m_walkersInPopulation s) s.
Proof.
  intros Hsize. unfold updateEvaluations.
  set (delta := clampDelta timeSinceLastTick).
  set (upd := updateEvaluation delta (gWalkerMotorStrength s) (gWalkerLegTargetFrequency s)).
  apply wpx_bind, wpx_modify.
  set (s0 := withSimulationTime _ s).
  eapply wpx_mono.
  - apply (wpx_forM False
      (fun k _ s' =>
         s' = withWalkers (m_walkersInPopulation s') s0 /\
         populationSize s' = populationSize s /\
         forall i w, walker s i = Some w ->
           walker s' i = Some (if i <? Z.of_nat k then upd w else w))).
    + split; [destruct s; reflexivity|]. split; [reflexivity|].
      intros i w Hw. pose proof (walker_Some _ _ _ Hw).
      destruct (Z.ltb_spec i (Z.of_nat 0)); [lia | exact Hw].
    + intros k [] s1 Hk (Hframe & Hsz & Hw1). rewrite Z.add_0_l.
      destruct (walker_is_Some s (Z.of_nat k) ltac:(lia)) as [w Hw].
      pose proof (Hw1 _ _ Hw) as Hwk.
      destruct (Z.ltb_spec (Z.of_nat k) (Z.of_nat k)); [lia|].
      apply wpx_bind, wpx_walkerAt; [right; eauto|]. intros w' Hw'.
      rewrite Hwk in Hw'. injection Hw' as <-.
      apply wpx_bind, wpx_gets, wpx_bind, wpx_gets.
      apply wpx_setWalkerAt; [right; eauto|]. intros _.
      replace (gWalkerMotorStrength s1) with (gWalkerMotorStrength s)
        by (rewrite Hframe; reflexivity).
      replace (gWalkerLegTargetFrequency s1) with (gWalkerLegTargetFrequency s)
        by (rewrite Hframe; reflexivity).
      fold upd.
      split; [rewrite Hframe at 2; reflexivity|].
      split; [rewrite populationSize_withWalkers_insert; exact Hsz|].
      intros i v Hv. specialize (Hw1 i v Hv).
      destruct (decide (Z.of_nat k = i)) as [<-|Hne].
      * rewrite walker_withWalkers_insert_eq by (unfold populationSize in *; lia).
        destruct (Z.ltb_spec (Z.of_nat k) (Z.of_nat (S k))); [congruence | lia].
      * rewrite walker_withWalkers_insert_ne by lia. rewrite Hw1.
        destruct (Z.ltb_spec i (Z.of_nat k)), (Z.ltb_spec i (Z.of_nat (S k)));
          (reflexivity || lia).
  - intros [] s' (Hframe & Hsz & Hw). split; [exact Hframe|].
    rewrite (population_fmap (fun _ => upd) s s' Hsz).
    + apply list_eq. intros n. rewrite list_lookup_imap, list_lookup_fmap. reflexivity.
    + intros i w Hi. rewrite (Hw i w Hi). pose proof (walker_Some _ _ _ Hi).
      destruct (Z.ltb_spec i (Z.of_nat (Z.to_nat (POPULATION_SIZE cfg)))); [reflexivity | lia].
Qed.

(** ** One slot of the scheduler *)

Lemma newNNWalker_spec F index startingPosition s :
  wpx F (newNNWalker index startingPosition)
      (fun w s' =>
         only_rand s s' /\ m_inEvaluation w = false /\
         m_evaluationTime w = F32.of_int 0 /\ m_reaped w = false /\ m_index w = index) s.
Proof.
  unfold newNNWalker. eapply wpx_mono; [apply randomizeSensoryMotorWeights_spec|].
  intros w s' ((ws & ->) & Hs). cbn. auto.
Qed.

Lemma copySensoryMotorWeights_reweighted ws w :
  reweighted w (copySensoryMotorWeights ws w).
Proof. eexists. reflexivity. Qed.

Lemma resetWalkerAt_spec i resetPosition s w :
  walker s i = Some w ->
  wpx False (resetWalkerAt i resetPosition)
      (fun _ s' => exists w',
         s' = withRandCalls (randCalls s')
                (withWalkers (<[Z.to_nat i := w']> (m_walkersInPopulation s)) s) /\
         m_inEvaluation w' = false /\ m_evaluationTime w' = F32.of_int 0 /\
         m_reaped w' = false /\ m_index w' = i) s.
Proof.
  intros Hw. unfold resetWalkerAt.
  apply wpx_bind. eapply wpx_mono; [apply newNNWalker_spec|].
  intros newWalker s1 (Hs1 & Hin & Ht & Hr & Hi). cbn beta.
  assert (Hw1 : walker s1 i = Some w) by (rewrite Hs1; exact Hw).
  apply wpx_bind, wpx_walkerAt; [right; eauto|]. intros old Hold.
  apply wpx_setWalkerAt; [right; eauto|]. intros _.
  exists (copySensoryMotorWeights (getSensoryMotorWeights old) newWalker).
  split; [|cbn; auto].
  rewrite Hs1. destruct s; reflexivity.
Qed.

Lemma generations_cons_started t msgs :
  generations (MsgEvaluationStarted t :: msgs) = generations msgs.
Proof. reflexivity. Qed.

Lemma scheduleWalker_spec cfg i s w :
  walker s i = Some w ->
  wpx False (scheduleWalker cfg i)
      (fun _ s' => exists w',
         m_walkersInPopulation s' = <[Z.to_nat i := w']> (m_walkersInPopulation s) /\
         gParallelEvaluations s' = gParallelEvaluations s /\
         generations (console s') = generations (console s) /\
         let w1 := if isFinished cfg w then setInEvaluation false w else w in
         let c1 := if isFinished cfg w
                   then m_walkersInEvaluation s - 1 else m_walkersInEvaluation s in
         if (F32.of_int c1 <? gParallelEvaluations s)%f32 && isFresh w1
         then m_walkersInEvaluation s' = c1 + 1 /\ m_inEvaluation w' = true
         else m_walkersInEvaluation s' = c1 /\ w' = w1) s.
Proof.
  intros Hw. pose proof (walker_Some _ _ _ Hw) as Hi. unfold scheduleWalker.
  apply wpx_bind, wpx_walkerAt; [right; eauto|]. intros w0 Hw0.
  rewrite Hw in Hw0. injection Hw0 as <-.
  fold (isFinished cfg w).
  set (w1 := if isFinished cfg w then setInEvaluation false w else w).
  set (c1 := if isFinished cfg w
             then m_walkersInEvaluation s - 1 else m_walkersInEvaluation s).
  (* the state after the tear-down *)
  apply wpx_bind.
  apply (wpx_mono _ _ (fun _ s1 =>
    m_walkersInPopulation s1 = <[Z.to_nat i := w1]> (m_walkersInPopulation s) /\
    gParallelEvaluations s1 = gParallelEvaluations s /\
    generations (console s1) = generations (console s) /\
    m_walkersInEvaluation s1 = c1)).
  { subst w1 c1. destruct (isFinished cfg w).
    - apply wpx_bind, wpx_gets, wpx_bind, wpx_b3Printf.
      apply wpx_bind, wpx_call; [right; eauto|]. intros w0 Hw0.
      change (walker s i = Some w0) in Hw0. rewrite Hw in Hw0. injection Hw0 as <-.
      apply wpx_modify. cbn. auto.
    - apply wpx_ret. repeat split.
      symmetry. apply list_insert_id. apply walker_lookup. exact Hw. }
  intros [] s1 (Hl1 & HP1 & Hg1 & Hc1). cbn beta.
  assert (Hw1 : walker s1 i = Some w1).
  { unfold walker. destruct (Z.ltb_spec i 0); [lia|]. rewrite Hl1.
    apply list_lookup_insert_eq. unfold populationSize in Hi. lia. }
  apply wpx_bind, wpx_walkerAt; [right; eauto|]. intros w0 Hw0.
  rewrite Hw1 in Hw0. injection Hw0 as <-.
  apply wpx_bind, wpx_gets, wpx_bind, wpx_gets.
  rewrite Hc1, HP1, <- andb_assoc. fold (isFresh w1).
  destruct ((F32.of_int c1 <? gParallelEvaluations s)%f32 && isFresh w1).
  - apply wpx_bind, wpx_gets, wpx_bind, wpx_b3Printf, wpx_bind, wpx_modify.
    set (s2 := withWalkersInEvaluation _ _).
    assert (Hw2 : walker s2 i = Some w1) by exact Hw1.
    apply wpx_bind.
    apply (wpx_mono _ _ (fun _ s3 => exists w3,
      m_walkersInPopulation s3 = <[Z.to_nat i := w3]> (m_walkersInPopulation s) /\
      gParallelEvaluations s3 = gParallelEvaluations s /\
      generations (console s3) = generations (console s) /\
      m_walkersInEvaluation s3 = c1 + 1)).
    { destruct (REBUILD_WALKER cfg).
      - eapply wpx_mono; [apply (resetWalkerAt_spec i _ s2 w1 Hw2)|].
        intros [] s3 (w3 & -> & _). exists w3. cbn.
        rewrite Hl1, list_insert_insert_eq, HP1, Hg1, Hc1. auto.
      - apply wpx_call; [right; eauto|]. intros w0 Hw0.
        exists (resetAt m_resetPosition w0). cbn.
        rewrite Hl1, list_insert_insert_eq, HP1, Hg1, Hc1. auto. }
    intros [] s3 (w3 & Hl3 & HP3 & Hg3 & Hc3). cbn beta.
    assert (Hw3 : walker s3 i = Some w3).
    { unfold walker. destruct (Z.ltb_spec i 0); [lia|]. rewrite Hl3.
      apply list_lookup_insert_eq. unfold populationSize in Hi. lia. }
    apply wpx_call; [right; eauto|]. intros w0 Hw0.
    rewrite Hw3 in Hw0. injection Hw0 as <-.
    exists (setInEvaluation true w3). cbn.
    rewrite Hl3, list_insert_insert_eq. auto.
  - apply wpx_ret. exists w1. auto.
Qed.

(** ** The scheduling loop *)

Lemma scheduled_scanning cfg s : scheduled cfg s -> scanning cfg 0 s.
Proof.
  intros [Hsz Hc Ho Hd]. split; try assumption.
  intros i wi Hwi Hi. apply walker_Some in Hwi. lia.
Qed.

Lemma scanning_scheduled cfg k s : scanning cfg k s -> scheduled cfg s.
Proof. intros [Hsz Hc Ho Hd _]. split; assumption. Qed.

Lemma isFresh_idle w : isFresh w = true -> m_inEvaluation w = false.
Proof. unfold isFresh. destruct (m_inEvaluation w); [discriminate | reflexivity]. Qed.

Lemma isFinished_inEvaluation cfg w : isFinished cfg w = true -> m_inEvaluation w = true.
Proof. unfold isFinished. destruct (m_inEvaluation w); [reflexivity | discriminate]. Qed.

Lemma isFinished_not_fresh cfg w :
  durationPositive cfg -> isFinished cfg w = true ->
  isFresh (setInEvaluation false w) = false.
Proof.
  unfold isFinished, isFresh. intros Hd H. apply andb_true_iff in H as [_ H].
  cbn. apply (reached_not_zero _ (F32.of_int (EVALUATION_DURATION cfg))); assumption.
Qed.

Lemma isFinished_evaluated cfg w :
  isFinished cfg w = true -> isEvaluated cfg (setInEvaluation false w) = true.
Proof.
  unfold isFinished, isEvaluated. intros H. apply andb_true_iff in H as [_ H].
  cbn. exact H.
Qed.

Lemma walker_after_insert s s' i w' j :
  0 <= i < populationSize s ->
  m_walkersInPopulation s' = <[Z.to_nat i := w']> (m_walkersInPopulation s) ->
  walker s' j = if decide (i = j) then Some w' else walker s j.
Proof.
  intros Hi Hl. unfold walker. rewrite Hl. destruct (decide (i = j)) as [<-|Hne].
  - destruct (Z.ltb_spec i 0); [lia|]. apply list_lookup_insert_eq.
    unfold populationSize in Hi. lia.
  - destruct (Z.ltb_spec j 0); [reflexivity|]. apply list_lookup_insert_ne. lia.
Qed.

(** The visit of slot [k] takes the invariant from [k] to [k + 1]. *)
Lemma scanning_step cfg k s s' w w' :
  durationPositive cfg ->
  scanning cfg k s ->
  walker s k = Some w ->
  m_walkersInPopulation s' = <[Z.to_nat k := w']> (m_walkersInPopulation s) ->
  gParallelEvaluations s' = gParallelEvaluations s ->
  (let w1 := if isFinished cfg w then setInEvaluation false w else w in
   let c1 := if isFinished cfg w
             then m_walkersInEvaluation s - 1 else m_walkersInEvaluation s in
   if (F32.of_int c1 <? gParallelEvaluations s)%f32 && isFresh w1
   then m_walkersInEvaluation s' = c1 + 1 /\ m_inEvaluation w' = true
   else m_walkersInEvaluation s' = c1 /\ w' = w1) ->
  scanning cfg (k + 1) s'.
Proof.
  intros Hdur [Hsz Hc Ho Hd Hb] Hw Hl HP Htrans.
  pose proof (walker_Some _ _ _ Hw) as Hk.
  pose proof (walker_after_insert s s' k w' ltac:(eauto) Hk Hl) as Hlook.
  assert (Hlook' : forall j, walker s' j = if decide (k = j) then Some w' else walker s j).
  { intros j. apply (walker_after_insert s s' k w' j Hk Hl). }
  clear Hlook.
  assert (Hev : evaluating (m_walkersInPopulation s')
                = evaluating (m_walkersInPopulation s)
                  - Z.b2z (m_inEvaluation w) + Z.b2z (m_inEvaluation w')).
  { rewrite Hl. apply evaluating_insert, walker_lookup, Hw. }
  (* what the visit does to the walker and the counter *)
  assert (Hcases :
    (isFresh w' = true ->
       w' = w /\ m_walkersInEvaluation s' = m_walkersInEvaluation s /\
       (F32.of_int (m_walkersInEvaluation s) <? gParallelEvaluations s)%f32 = false) /\
    (m_inEvaluation w = false ->
     (F32.of_int (m_walkersInEvaluation s) <? gParallelEvaluations s)%f32 = false ->
       w' = w /\ m_walkersInEvaluation s' = m_walkersInEvaluation s) /\
    (m_inEvaluation w' = false -> isFresh w' = false -> isEvaluated cfg w' = true) /\
    m_walkersInEvaluation s'
    = m_walkersInEvaluation s - Z.b2z (m_inEvaluation w) + Z.b2z (m_inEvaluation w')).
  { cbv zeta in Htrans. destruct (isFinished cfg w) eqn:Hfin.
    - pose proof (isFinished_inEvaluation _ _ Hfin) as Hin.
      pose proof (isFinished_not_fresh _ _ Hdur Hfin) as Hnf.
      rewrite Hnf, andb_false_r in Htrans. destruct Htrans as [Hc' ->].
      split; [|split; [|split]].
      + intros E. congruence.
      + intros E. congruence.
      + intros _ _. apply isFinished_evaluated, Hfin.
      + rewrite Hc', Hin. cbn. lia.
    - destruct ((F32.of_int (m_walkersInEvaluation s) <? gParallelEvaluations s)%f32) eqn:Hroom;
        cbn [andb] in Htrans.
      + destruct (isFresh w) eqn:Hfresh.
        * destruct Htrans as [Hc' Hin']. pose proof (isFresh_idle _ Hfresh) as Hidle.
          split; [|split; [|split]].
          -- intros E. apply isFresh_idle in E. congruence.
          -- intros _ E. discriminate.
          -- intros E. congruence.
          -- rewrite Hc', Hin', Hidle. cbn. lia.
        * destruct Htrans as [Hc' ->]. split; [|split; [|split]].
          -- intros E. congruence.
          -- intros _ E. discriminate.
          -- intros E1 E2. apply (Hd k w Hw E1 E2).
          -- rewrite Hc'. lia.
      + destruct Htrans as [Hc' ->]. split; [|split; [|split]].
        * intros _. auto.
        * intros _ _. auto.
        * intros E1 E2. apply (Hd k w Hw E1 E2).
        * rewrite Hc'. lia. }
  destruct Hcases as (Hfresh' & Hstay & Hdone' & Hcount').
  split.
  - unfold populationSize. rewrite Hl, length_insert. exact Hsz.
  - rewrite Hev, Hcount', Hc. reflexivity.
  - intros i j wi wj Hwi Hwj Hij Hfi. rewrite Hlook' in Hwi, Hwj.
    destruct (decide (k = i)) as [<-|Hki], (decide (k = j)) as [<-|Hkj].
    + congruence.
    + injection Hwi as <-. destruct (Hfresh' Hfi) as (-> & _).
      apply (Ho k j w wj Hw Hwj Hij Hfi).
    + injection Hwj as <-.
      destruct (Hb i wi Hwi ltac:(lia) Hfi) as [Hblocked Hidle].
      destruct (Hstay (Hidle k w Hw ltac:(lia)) Hblocked) as [-> _].
      apply (Ho i k wi w Hwi Hw Hij Hfi).
    + apply (Ho i j wi wj Hwi Hwj Hij Hfi).
  - intros i v Hv Hidle Hnf. rewrite Hlook' in Hv.
    destruct (decide (k = i)) as [<-|Hki].
    + injection Hv as <-. apply Hdone'; assumption.
    + apply (Hd i v Hv Hidle Hnf).
  - intros i wi Hwi Hi Hfi. rewrite Hlook' in Hwi. rewrite HP.
    destruct (decide (k = i)) as [<-|Hki].
    + injection Hwi as <-. destruct (Hfresh' Hfi) as (-> & -> & Hblocked).
      split; [exact Hblocked|].
      intros j wj Hwj Hj. rewrite Hlook' in Hwj.
      destruct (decide (k = j)); [lia|].
      apply isFresh_idle, (Ho k j w wj Hw Hwj ltac:(lia) Hfi).
    + destruct (Hb i wi Hwi ltac:(lia) Hfi) as [Hblocked Hidle].
      destruct (Hstay (Hidle k w Hw ltac:(lia)) Hblocked) as [-> ->].
      split; [exact Hblocked|].
      intros j wj Hwj Hj. rewrite Hlook' in Hwj.
      destruct (decide (k = j)); [lia|].
      apply (Hidle j wj Hwj). lia.
Qed.

Lemma bound_step cfg k s s' w w' p :
  durationPositive cfg ->
  scanning cfg k s ->
  walker s k = Some w ->
  m_walkersInPopulation s' = <[Z.to_nat k := w']> (m_walkersInPopulation s) ->
  gParallelEvaluations s' = gParallelEvaluations s ->
  (let w1 := if isFinished cfg w then setInEvaluation false w else w in
   let c1 := if isFinished cfg w
             then m_walkersInEvaluation s - 1 else m_walkersInEvaluation s in
   if (F32.of_int c1 <? gParallelEvaluations s)%f32 && isFresh w1
   then m_walkersInEvaluation s' = c1 + 1 /\ m_inEvaluation w' = true
   else m_walkersInEvaluation s' = c1 /\ w' = w1) ->
  POPULATION_SIZE cfg <= 50 -> gParallelEvaluations s = F32.of_int p -> 0 <= p ->
  m_walkersInEvaluation s <= p -> m_walkersInEvaluation s' <= p.
Proof.
  intros Hdur Hscan Hw Hl HP Htrans HN HPp Hp Hle.
  pose proof (scanning_step _ _ _ _ _ _ Hdur Hscan Hw Hl HP Htrans) as Hscan'.
  destruct Hscan as [Hsz Hc _ _ _]. destruct Hscan' as [Hsz' Hc' _ _ _].
  pose proof (evaluating_bounds (m_walkersInPopulation s)) as Hb.
  pose proof (evaluating_bounds (m_walkersInPopulation s')) as Hb'.
  unfold populationSize in Hsz, Hsz'.
  destruct (Z.le_gt_cases p 50) as [Hsmall|Hbig]; [|lia].
  cbv zeta in Htrans. destruct (isFinished cfg w) eqn:Hfin.
  - rewrite (isFinished_not_fresh _ _ Hdur Hfin), andb_false_r in Htrans.
    destruct Htrans as [-> _]. lia.
  - destruct ((F32.of_int (m_walkersInEvaluation s) <? gParallelEvaluations s)%f32
              && isFresh w) eqn:Hadm.
    + destruct Htrans as [-> _]. apply andb_true_iff in Hadm as [Hroom _].
      rewrite HPp in Hroom. apply of_int_ltb_small in Hroom; lia.
    + destruct Htrans as [-> _]. exact Hle.
Qed.

Lemma scheduleLoop_spec cfg s :
  durationPositive cfg -> scheduled cfg s ->
  wpx False (scheduleLoop cfg)
      (fun _ s' =>
         scanning cfg (POPULATION_SIZE cfg) s' /\
         gParallelEvaluations s' = gParallelEvaluations s /\
         generations (console s') = generations (console s) /\
         forall p, POPULATION_SIZE cfg <= 50 -> gParallelEvaluations s = F32.of_int p ->
           0 <= p -> m_walkersInEvaluation s <= p -> m_walkersInEvaluation s' <= p) s.
Proof.
  intros Hdur Hsched. unfold scheduleLoop.
  assert (HN : 0 <= POPULATION_SIZE cfg).
  { destruct Hsched as [Hsz _ _ _]. unfold populationSize in Hsz. lia. }
  eapply wpx_mono.
  - apply (wpx_forM False
      (fun k _ s' =>
         scanning cfg (Z.of_nat k) s' /\
         gParallelEvaluations s' = gParallelEvaluations s /\
         generations (console s') = generations (console s) /\
         forall p, POPULATION_SIZE cfg <= 50 -> gParallelEvaluations s = F32.of_int p ->
           0 <= p -> m_walkersInEvaluation s <= p -> m_walkersInEvaluation s' <= p)).
    + split; [apply scheduled_scanning, Hsched|]. auto.
    + intros k [] s1 Hk (Hscan & HP & Hg & Hbound). rewrite Z.add_0_l.
      destruct (walker_is_Some s1 (Z.of_nat k)) as [w Hw].
      { rewrite (scan_size _ _ _ Hscan). lia. }
      eapply wpx_mono; [apply (scheduleWalker_spec cfg _ s1 w Hw)|].
      intros [] s2 (w' & Hl & HP2 & Hg2 & Htrans). cbn beta.
      replace (Z.of_nat (S k)) with (Z.of_nat k + 1) by lia.
      split; [eapply scanning_step; eauto|].
      split; [congruence|]. split; [congruence|].
      intros p HN50 HPp Hp Hle.
      eapply bound_step; eauto. congruence.
  - intros [] s' (Hscan & H). rewrite Z2Nat.id in Hscan by lia. auto.
Qed.

(** When the loop ends with no walker in flight and there is room for one,
    every walker has been evaluated. *)
Lemma scanning_round_over cfg s :
  scanning cfg (POPULATION_SIZE cfg) s ->
  (F32.of_int 0 <? gParallelEvaluations s)%f32 = true ->
  m_walkersInEvaluation s = 0 ->
  Forall (fun w => isEvaluated cfg w = true) (m_walkersInPopulation s).
Proof.
  intros [Hsz Hc Ho Hd Hb] Hroom H0. apply Forall_lookup. intros n w Hn.
  apply lookup_walker in Hn. pose proof (walker_Some _ _ _ Hn) as Hi.
  assert (Hidle : m_inEvaluation w = false).
  { rewrite Hc in H0. apply evaluating_0 in H0. rewrite Forall_lookup in H0.
    apply (H0 (Z.to_nat (Z.of_nat n))). apply walker_lookup. exact Hn. }
  apply (Hd _ _ Hn Hidle).
  destruct (isFresh w) eqn:Hf; [|reflexivity].
  destruct (Hb _ _ Hn ltac:(lia) Hf) as [Hblocked _].
  rewrite H0 in Hblocked. congruence.
Qed.

(** ** Rating *)

Lemma quickSortInsert_length {A} (cmp : A -> A -> bool) x l :
  length (quickSortInsert cmp x l) = S (length l).
Proof.
  induction l as [|y l IH]; [reflexivity|].
  cbn [quickSortInsert]. destruct (cmp y x); cbn [length]; [rewrite IH|]; reflexivity.
Qed.

Lemma quickSort_length {A} (cmp : A -> A -> bool) l :
  length (quickSort cmp l) = length l.
Proof.
  induction l as [|x l IH]; [reflexivity|].
  cbn [quickSort foldr]. fold (quickSort cmp l).
  rewrite quickSortInsert_length, IH. reflexivity.
Qed.

Lemma quickSortInsert_Permutation {A} (cmp : A -> A -> bool) x l :
  Permutation (quickSortInsert cmp x l) (x :: l).
Proof.
  induction l as [|y l IH]; [reflexivity|].
  cbn [quickSortInsert]. destruct (cmp y x); [|reflexivity].
  rewrite IH. apply perm_swap.
Qed.

Lemma quickSort_Permutation {A} (cmp : A -> A -> bool) l :
  Permutation (quickSort cmp l) l.
Proof.
  induction l as [|x l IH]; [reflexivity|].
  cbn [quickSort foldr]. fold (quickSort cmp l).
  rewrite quickSortInsert_Permutation, IH. reflexivity.
Qed.

Lemma rateEvaluations_spec cfg s :
  populationSize s = POPULATION_SIZE cfg -> 1 <= POPULATION_SIZE cfg ->
  wpx False (rateEvaluations cfg)
      (fun _ s' =>
         m_walkersInPopulation s'
         = setEvaluationTime (F32.of_int 0)
           <$> quickSort fitnessComparator (m_walkersInPopulation s) /\
         m_nextReapedIndex s' = 0 /\
         m_walkersInEvaluation s' = m_walkersInEvaluation s /\
         gParallelEvaluations s' = gParallelEvaluations s /\
         generations (console s') = generations (console s)) s.
Proof.
  intros Hsize HN. unfold rateEvaluations.
  apply wpx_bind, wpx_modify.
  set (sorted := quickSort fitnessComparator (m_walkersInPopulation s)).
  set (s1 := withWalkers sorted s).
  assert (Hsz1 : populationSize s1 = POPULATION_SIZE cfg).
  { unfold populationSize, s1, sorted. cbn. rewrite quickSort_length. exact Hsize. }
  apply wpx_bind, wpx_walkerAt; [right; apply walker_is_Some; lia|].
  intros best _. apply wpx_bind, wpx_b3Printf, wpx_bind, wpx_gets.
  set (s2 := withConsole _ s1).
  apply wpx_bind.
  apply (wpx_mono _ _ (fun _ s3 =>
    m_walkersInPopulation s3 = sorted /\
    m_walkersInEvaluation s3 = m_walkersInEvaluation s /\
    gParallelEvaluations s3 = gParallelEvaluations s /\
    generations (console s3) = generations (console s))).
  { apply wpx_if; intros _; [apply wpx_b3Printf | apply wpx_modify]; cbn; auto. }
  intros [] s3 (Hl3 & Hc3 & HP3 & Hg3). cbn beta.
  apply wpx_bind. eapply wpx_mono.
  - apply (wpx_forM False
      (fun k _ s' =>
         populationSize s' = populationSize s3 /\
         m_walkersInEvaluation s' = m_walkersInEvaluation s /\
         gParallelEvaluations s' = gParallelEvaluations s /\
         generations (console s') = generations (console s) /\
         forall i w, walker s3 i = Some w ->
           walker s' i = Some (if i <? Z.of_nat k
                               then setEvaluationTime (F32.of_int 0) w else w))).
    + split; [reflexivity|]. split; [exact Hc3|]. split; [exact HP3|]. split; [exact Hg3|].
      intros i w Hw. pose proof (walker_Some _ _ _ Hw).
      destruct (Z.ltb_spec i (Z.of_nat 0)); [lia | exact Hw].
    + intros k [] s4 Hk (Hsz4 & Hc4 & HP4 & Hg4 & Hw4). rewrite Z.add_0_l.
      assert (Hsz3 : populationSize s3 = POPULATION_SIZE cfg).
      { unfold populationSize. rewrite Hl3. exact Hsz1. }
      destruct (walker_is_Some s3 (Z.of_nat k) ltac:(lia)) as [w Hw].
      pose proof (Hw4 _ _ Hw) as Hwk.
      destruct (Z.ltb_spec (Z.of_nat k) (Z.of_nat k)); [lia|].
      apply wpx_call; [right; eauto|]. intros w' Hw'.
      rewrite Hwk in Hw'. injection Hw' as <-.
      split; [rewrite populationSize_withWalkers_insert; exact Hsz4|].
      split; [exact Hc4|]. split; [exact HP4|]. split; [exact Hg4|].
      intros i v Hv. specialize (Hw4 i v Hv).
      destruct (decide (Z.of_nat k = i)) as [<-|Hne].
      * rewrite walker_withWalkers_insert_eq by (unfold populationSize in *; lia).
        destruct (Z.ltb_spec (Z.of_nat k) (Z.of_nat (S k))); [congruence | lia].
      * rewrite walker_withWalkers_insert_ne by lia. rewrite Hw4.
        destruct (Z.ltb_spec i (Z.of_nat k)), (Z.ltb_spec i (Z.of_nat (S k)));
          (reflexivity || lia).
  - intros [] s4 (Hsz4 & Hc4 & HP4 & Hg4 & Hw4). cbn beta. apply wpx_modify.
    cbn. split; [|auto].
    rewrite (population_fmap (fun _ => setEvaluationTime (F32.of_int 0)) s3 s4 Hsz4).
    + rewrite Hl3. apply list_eq. intros n.
      rewrite list_lookup_imap, list_lookup_fmap. reflexivity.
    + intros i w Hi. rewrite (Hw4 i w Hi). pose proof (walker_Some _ _ _ Hi) as Hr.
      assert (Hsz3 : populationSize s3 = POPULATION_SIZE cfg).
      { unfold populationSize. rewrite Hl3. exact Hsz1. }
      destruct (Z.ltb_spec i (Z.of_nat (Z.to_nat (POPULATION_SIZE cfg)))); [reflexivity | lia].
Qed.

(** ** The invariant of the scheduler *)

Lemma started_scheduled cfg s : started cfg s -> scheduled cfg s.
Proof.
  intros (Hsz & Hc & Hall). rewrite Forall_lookup in Hall. split.
  - exact Hsz.
  - rewrite Hc. symmetry. apply evaluating_0. apply Forall_lookup.
    intros n w Hn. apply isFresh_idle, (Hall n w Hn).
  - intros i j wi wj _ Hwj _ _. apply walker_lookup in Hwj. eapply Hall; eauto.
  - intros i w Hw _ Hnf. apply walker_lookup in Hw. rewrite (Hall _ _ Hw) in Hnf.
    discriminate.
Qed.

Lemma scheduled_Forall2 cfg s s' :
  scheduled cfg s ->
  Forall2 (sameSchedule cfg) (m_walkersInPopulation s) (m_walkersInPopulation s') ->
  m_walkersInEvaluation s' = m_walkersInEvaluation s ->
  scheduled cfg s'.
Proof.
  intros [Hsz Hc Ho Hd] Hall Hcount.
  assert (Hback : forall i w', walker s' i = Some w' ->
            exists w, walker s i = Some w /\ sameSchedule cfg w w').
  { intros i w' Hw'. pose proof (walker_Some _ _ _ Hw') as Hi.
    apply walker_lookup in Hw'.
    destruct (Forall2_lookup_r _ _ _ _ _ Hall Hw') as (w & Hw & Hr).
    exists w. split; [|exact Hr]. apply lookup_walker in Hw.
    rewrite Z2Nat.id in Hw by lia. exact Hw. }
  split.
  - unfold populationSize. rewrite <- (Forall2_length _ _ _ Hall). exact Hsz.
  - rewrite Hcount, Hc. symmetry.
    apply (evaluating_Forall2 (sameSchedule cfg)); [|exact Hall].
    intros w w' (E & _). exact E.
  - intros i j wi wj Hwi Hwj Hij Hf.
    destruct (Hback _ _ Hwi) as (vi & Hvi & _ & Ei & _).
    destruct (Hback _ _ Hwj) as (vj & Hvj & _ & Ej & _).
    rewrite Ej. apply (Ho i j vi vj Hvi Hvj Hij). congruence.
  - intros i w' Hw' Hidle Hnf.
    destruct (Hback _ _ Hw') as (w & Hw & E1 & E2 & E3).
    rewrite E3. apply (Hd i w Hw); congruence.
Qed.

Lemma updateEvaluation_sameSchedule cfg delta motorStrength legTargetFrequency w :
  sameSchedule cfg w (updateEvaluation delta motorStrength legTargetFrequency w).
Proof.
  pose proof (updateEvaluation_inEvaluation delta motorStrength legTargetFrequency w) as E.
  destruct (m_inEvaluation w) eqn:Hin.
  - unfold sameSchedule, isFresh, isEvaluated. rewrite E, Hin. auto.
  - rewrite updateEvaluation_idle by exact Hin. unfold sameSchedule. auto.
Qed.

Lemma moved_sameSchedule cfg w w' : moved w w' -> sameSchedule cfg w w'.
Proof. intros ->. unfold sameSchedule. auto. Qed.

Lemma world_step_scheduled cfg s s' :
  scheduled cfg s -> world_step s s' -> scheduled cfg s'.
Proof.
  intros Hs [Hframe Hall]. apply (scheduled_Forall2 cfg s s' Hs).
  - eapply Forall2_impl; [exact Hall|]. intros w w'. apply moved_sameSchedule.
  - rewrite Hframe. reflexivity.
Qed.

Lemma updateEvaluations_scheduled cfg timeSinceLastTick s :
  scheduled cfg s ->
  wpx False (updateEvaluations cfg timeSinceLastTick)
      (fun _ s' =>
         scheduled cfg s' /\
         gParallelEvaluations s' = gParallelEvaluations s /\
         m_walkersInEvaluation s' = m_walkersInEvaluation s /\
         console s' = console s) s.
Proof.
  intros Hs. eapply wpx_mono; [apply updateEvaluations_spec, (sched_size _ _ Hs)|].
  intros [] s' [Hframe Hl]. cbn beta.
  split; [|rewrite Hframe; auto].
  apply (scheduled_Forall2 cfg s s' Hs).
  - rewrite Hl. apply Forall2_fmap_r, Forall_Forall2_diag, Forall_forall.
    intros w _. apply updateEvaluation_sameSchedule.
  - rewrite Hframe. reflexivity.
Qed.

(** ** A new generation under the default parameters *)

Lemma population_rel_Forall r T s s' (P : NNWalker -> Prop) :
  population_rel r T s s' ->
  (forall w w', r w w' -> P w -> P w') ->
  Forall P (m_walkersInPopulation s) -> Forall P (m_walkersInPopulation s').
Proof.
  intros [Hsz H] Hr Hall. rewrite Forall_lookup in Hall. apply Forall_lookup.
  intros n w' Hn'. apply lookup_walker in Hn'. pose proof (walker_Some _ _ _ Hn') as Hi.
  rewrite Hsz in Hi. destruct (walker_is_Some s _ Hi) as [w Hw].
  destruct (H _ _ Hw) as (w'' & Hw'' & Hrel & _).
  assert (w'' = w') as -> by congruence.
  apply (Hr w w' Hrel). apply (Hall (Z.to_nat (Z.of_nat n))), walker_lookup, Hw.
Qed.

Lemma marked_from_rel lo s s' :
  populationSize s' = populationSize s -> marked_from lo s s' ->
  population_rel bred (fun i => lo <= i) s s'.
Proof.
  intros Hsz Hm. split; [exact Hsz|].
  intros i w Hw. exists (if lo <=? i then setReaped true w else w).
  split; [apply Hm; exact Hw|].
  destruct (Z.leb_spec lo i).
  - split; [|lia]. exists (m_sensoryMotorWeights w), true. destruct w; reflexivity.
  - split; [apply bred_refl | reflexivity].
Qed.

Lemma bred_atRoundStart w w' : bred w w' -> atRoundStart w -> atRoundStart w'.
Proof. intros (ws & b & ->) H. exact H. Qed.

Lemma atRoundStart_fresh w : atRoundStart w -> isFresh w = true.
Proof. intros [H1 H2]. unfold isFresh. rewrite H1, H2. reflexivity. Qed.

Lemma newGeneration_default s :
  rand_in_range -> 0 < RAND_MAX ->
  populationSize s = 50 -> evaluating (m_walkersInPopulation s) = 0 ->
  wpx False (newGeneration defaultConfig)
      (fun _ s' =>
         populationSize s' = 50 /\
         Forall atRoundStart (m_walkersInPopulation s') /\
         m_walkersInEvaluation s' = m_walkersInEvaluation s /\
         gParallelEvaluations s' = gParallelEvaluations s /\
         generations (console s') = generations (console s) + 1) s.
Proof.
  intros Hrand Hpos Hsize Hidle. unfold newGeneration.
  cbn [REBUILD_WALKER defaultConfig negb]. apply wpx_bind, wpx_ret.
  apply wpx_bind. eapply wpx_mono.
  { apply rateEvaluations_spec; [exact Hsize | cbn; lia]. }
  intros [] s1 (Hl1 & Hn1 & Hc1 & HP1 & Hg1). cbn beta.
  assert (Hsz1 : populationSize s1 = 50).
  { unfold populationSize. rewrite Hl1, length_fmap, quickSort_length. exact Hsize. }
  assert (Hall1 : Forall atRoundStart (m_walkersInPopulation s1)).
  { rewrite Hl1. apply Forall_fmap. apply evaluating_0 in Hidle.
    rewrite <- (quickSort_Permutation fitnessComparator) in Hidle.
    eapply Forall_impl; [exact Hidle|]. intros w Hw. split; [exact Hw | reflexivity]. }
  apply wpx_bind. eapply wpx_mono; [apply reap_default; exact Hsz1|].
  intros [] s2 (Hc2 & Hg2 & Hn2 & Hsz2 & Hm2). cbn beta.
  apply wpx_bind. eapply wpx_mono.
  { apply sow_default; try assumption; [congruence|].
    intros i Hi. eapply marked_from_reaped; [exact Hm2 | lia | lia]. }
  intros [] s3 (Hc3 & Hg3 & Hn3 & Hp3). cbn beta.
  apply wpx_b3Printf. cbn.
  assert (Hp2 : population_rel bred (fun i => 35 <= i) s1 s2).
  { apply marked_from_rel; [congruence | exact Hm2]. }
  split; [change (populationSize s3 = 50); destruct Hp3 as [L _]; congruence|].
  split.
  { eapply population_rel_Forall; [exact Hp3 | apply bred_atRoundStart|].
    eapply population_rel_Forall; [exact Hp2 | apply bred_atRoundStart | exact Hall1]. }
  unfold globals in Hg2, Hg3.
  injection Hg2 as _ _ Hcount2 _ _ _ HPar2. injection Hg3 as _ _ Hcount3 _ _ _ HPar3.
  split; [congruence|]. split; [congruence|].
  rewrite Hc3, Hc2. cbn. lia.
Qed.

(** ** One update under the default parameters *)

Lemma durationPositive_default : durationPositive defaultConfig.
Proof. reflexivity. Qed.

Lemma update_default s timeStep :
  rand_in_range -> 0 < RAND_MAX -> scheduled defaultConfig s ->
  exists s1 s2 s',
    updateEvaluations defaultConfig timeStep s = Ok (tt, s1) /\
    scheduleLoop defaultConfig s1 = Ok (tt, s2) /\
    update defaultConfig timeStep s = Ok (tt, s') /\
    scanning defaultConfig 50 s2 /\
    gParallelEvaluations s2 = gParallelEvaluations s /\
    generations (console s2) = generations (console s) /\
    (forall p, gParallelEvaluations s = F32.of_int p -> 0 <= p ->
       m_walkersInEvaluation s <= p -> m_walkersInEvaluation s2 <= p) /\
    (m_walkersInEvaluation s2 = 0 /\
     populationSize s' = 50 /\ Forall atRoundStart (m_walkersInPopulation s') /\
     m_walkersInEvaluation s' = 0 /\
     gParallelEvaluations s' = gParallelEvaluations s /\
     generations (console s') = generations (console s) + 1
     \/
     m_walkersInEvaluation s2 <> 0 /\ s' = s2).
Proof.
  intros Hrand Hpos Hs.
  pose proof (updateEvaluations_scheduled defaultConfig timeStep s Hs) as H1.
  apply wpx_run in H1. destruct H1 as ([] & s1 & E1 & Hs1 & HP1 & Hc1 & Hcon1).
  pose proof (scheduleLoop_spec defaultConfig s1 durationPositive_default Hs1) as H2.
  apply wpx_run in H2. destruct H2 as ([] & s2 & E2 & Hscan & HP2 & Hg2 & Hbound).
  change (POPULATION_SIZE defaultConfig) with 50 in Hscan, Hbound.
  assert (Hstep : forall s', scheduleEvaluations defaultConfig s1 = Ok (tt, s') ->
                    update defaultConfig timeStep s = Ok (tt, s')).
  { intros s' E. unfold update, mbind, M_bind. rewrite E1. exact E. }
  assert (Hsched : scheduleEvaluations defaultConfig s1
                   = (if m_walkersInEvaluation s2 =? 0
                      then newGeneration defaultConfig else mret tt) s2).
  { unfold scheduleEvaluations, mbind, M_bind. rewrite E2. reflexivity. }
  assert (Hbound' : forall p, gParallelEvaluations s = F32.of_int p -> 0 <= p ->
            m_walkersInEvaluation s <= p -> m_walkersInEvaluation s2 <= p).
  { intros p HPp Hp Hle. apply (Hbound p); [lia | congruence | lia | lia]. }
  destruct (Z.eqb_spec (m_walkersInEvaluation s2) 0) as [H0|Hn0].
  - assert (H3 : wpx False (newGeneration defaultConfig)
              (fun _ s' =>
                 populationSize s' = 50 /\
                 Forall atRoundStart (m_walkersInPopulation s') /\
                 m_walkersInEvaluation s' = m_walkersInEvaluation s2 /\
                 gParallelEvaluations s' = gParallelEvaluations s2 /\
                 generations (console s') = generations (console s2) + 1) s2).
    { apply newGeneration_default; try assumption.
      - apply (scan_size _ _ _ Hscan).
      - rewrite <- (scan_count _ _ _ Hscan). exact H0. }
    apply wpx_run in H3. destruct H3 as ([] & s' & E3 & Hsz & Hall & Hc3 & HP3 & Hg3).
    exists s1, s2, s'. split; [exact E1|]. split; [exact E2|].
    split; [apply Hstep; rewrite Hsched; exact E3|].
    split; [exact Hscan|]. split; [congruence|]. split; [congruence|].
    split; [exact Hbound'|]. left.
    split; [exact H0|]. split; [exact Hsz|]. split; [exact Hall|].
    split; [congruence|]. split; [congruence|]. congruence.
  - exists s1, s2, s2. split; [exact E1|]. split; [exact E2|].
    split; [apply Hstep; rewrite Hsched; reflexivity|].
    split; [exact Hscan|]. split; [congruence|]. split; [congruence|].
    split; [exact Hbound'|]. right. auto.
Qed.

Lemma roundStart_started s :
  populationSize s = 50 -> Forall atRoundStart (m_walkersInPopulation s) ->
  m_walkersInEvaluation s = 0 -> started defaultConfig s.
Proof.
  intros Hsz Hall Hc. split; [exact Hsz|]. split; [exact Hc|].
  eapply Forall_impl; [exact Hall|]. apply atRoundStart_fresh.
Qed.

(** Every state the example reaches satisfies the invariant of the
    scheduler, with the bound on the evaluations in flight it started
    with. *)
Lemma reachable_scheduled s0 s :
  rand_in_range -> 0 < RAND_MAX -> started defaultConfig s0 ->
  reachable defaultConfig s0 s ->
  scheduled defaultConfig s /\
  gParallelEvaluations s = gParallelEvaluations s0 /\
  forall p, gParallelEvaluations s0 = F32.of_int p -> 0 <= p ->
    m_walkersInEvaluation s <= p.
Proof.
  intros Hrand Hpos Hstart Hreach.
  induction Hreach as [|s timeStep s' _ IH Hupd|s s' _ IH Hworld].
  - split; [apply started_scheduled, Hstart|]. split; [reflexivity|].
    intros p _ Hp. destruct Hstart as (_ & -> & _). exact Hp.
  - destruct IH as (Hs & HP & Hb).
    destruct (update_default s timeStep Hrand Hpos Hs)
      as (s1 & s2 & s'' & _ & _ & E & Hscan & HP2 & _ & Hbound & Hcase).
    rewrite Hupd in E. injection E as <-.
    destruct Hcase as [(_ & Hsz & Hall & Hc & HP' & _) | (_ & ->)].
    + split; [apply started_scheduled, roundStart_started; assumption|].
      split; [congruence|]. intros p _ Hp. lia.
    + split; [eapply scanning_scheduled; exact Hscan|].
      split; [congruence|]. intros p HPp Hp.
      apply (Hbound p); [congruence | exact Hp | apply Hb; assumption].
  - destruct IH as (Hs & HP & Hb). destruct Hworld as [Hframe Hall].
    split; [eapply world_step_scheduled; [exact Hs | split; assumption]|].
    split; [rewrite Hframe; exact HP|].
    intros p HPp Hp. rewrite Hframe. apply Hb; assumption.
Qed.

(** ** The scheduler: parallelism bound and round completion *)

(** C6: under the default parameters, with [gParallelEvaluations] set to
    the integer [p >= 0], in every state the example reaches from the
    start (between two updates) at most [p] walkers are in evaluation, and
    [m_walkersInEvaluation] is their number; an idle fresh walker is
    activated only while the counter is below the bound, and a finished
    evaluation decrements it. *)
Theorem parallel_evaluations_bounded s0 p s :
  rand_in_range -> 0 < RAND_MAX -> started defaultConfig s0 ->
  gParallelEvaluations s0 = F32.of_int p -> 0 <= p ->
  reachable defaultConfig s0 s ->
  evaluating (m_walkersInPopulation s) <= p /\
  m_walkersInEvaluation s = evaluating (m_walkersInPopulation s).
Proof.
  intros Hrand Hpos Hstart HP Hp Hreach.
  destruct (reachable_scheduled s0 s Hrand Hpos Hstart Hreach) as (Hs & _ & Hb).
  rewrite <- (sched_count _ _ Hs). split; [apply Hb; assumption | reflexivity].
Qed.


(** ** Start-up *)

Lemma initPhysics_spec F cfg numIterations s :
  m_walkersInPopulation s = [] ->
  wpx F (initPhysics cfg numIterations)
      (fun _ s' =>
         populationSize s' = Z.max 0 (POPULATION_SIZE cfg) /\
         Forall atRoundStart (m_walkersInPopulation s') /\
         m_walkersInEvaluation s' = m_walkersInEvaluation s /\
         gParallelEvaluations s' = gParallelEvaluations s) s.
Proof.
  intros Hempty. unfold initPhysics.
  apply wpx_bind, wpx_modify, wpx_bind, wpx_modify, wpx_bind, wpx_modify.
  set (s0 := withMotorStrength _ _).
  eapply wpx_mono.
  - apply (wpx_forM F
      (fun k _ s' =>
         length (m_walkersInPopulation s') = k /\
         Forall atRoundStart (m_walkersInPopulation s') /\
         m_walkersInEvaluation s' = m_walkersInEvaluation s /\
         gParallelEvaluations s' = gParallelEvaluations s)).
    + cbn. rewrite Hempty. auto.
    + intros k [] s1 _ (Hlen & Hall & Hc & HP).
      apply wpx_bind. eapply wpx_mono; [apply newNNWalker_spec|].
      intros w s2 (Hs2 & Hin & Ht & _). cbn beta. apply wpx_modify.
      rewrite Hs2. cbn. rewrite length_app, Hlen. cbn.
      split; [lia|]. split; [|auto].
      apply Forall_app. split; [exact Hall|]. constructor; [split; assumption | constructor].
  - intros [] s' (Hlen & H). split; [|exact H].
    unfold populationSize. rewrite Hlen. lia.
Qed.

Lemma initPhysics_total cfg parallelEvaluations numIterations :
  exists s,
    initPhysics cfg numIterations (newExample parallelEvaluations) = Ok (tt, s) /\
    populationSize s = Z.max 0 (POPULATION_SIZE cfg) /\
    Forall atRoundStart (m_walkersInPopulation s) /\
    m_walkersInEvaluation s = 0 /\
    gParallelEvaluations s = parallelEvaluations.
Proof.
  pose proof (initPhysics_spec False cfg numIterations (newExample parallelEvaluations)
                eq_refl) as H.
  apply wpx_run in H. destruct H as ([] & s & E & H). exists s. split; [exact E | exact H].
Qed.

(** C9 (as the code has it): start-up checks nothing.  For every
    configuration, well-formed or not, [initPhysics] ends without a fault
    and leaves a population of [POPULATION_SIZE] idle walkers with the
    tunables it was given. *)
Theorem startup_never_fails cfg parallelEvaluations numIterations :
  exists s,
    initPhysics cfg numIterations (newExample parallelEvaluations) = Ok (tt, s) /\
    populationSize s = Z.max 0 (POPULATION_SIZE cfg) /\
    Forall atRoundStart (m_walkersInPopulation s) /\
    m_walkersInEvaluation s = 0 /\
    gParallelEvaluations s = parallelEvaluations.
Proof. apply initPhysics_total. Qed.

(** ** Touch sensors *)

Lemma aget_aset_false l j i :
  aget false (aset l j false) i
  = if decide (Z.to_nat i = Z.to_nat j) then false else aget false l i.
Proof.
  unfold aget, aset. destruct (decide (Z.to_nat i = Z.to_nat j)) as [->|Hne].
  - destruct (decide (Z.to_nat j < length l)%nat) as [Hlt|Hge].
    + rewrite list_lookup_insert_eq by exact Hlt. reflexivity.
    + rewrite list_insert_ge by lia. rewrite lookup_ge_None_2 by lia. reflexivity.
  - rewrite list_lookup_insert_ne by auto. reflexivity.
Qed.

Lemma cleared_at l js i :
  In i js ->
  aget false (foldl (fun sensors j => aset sensors j false) l js) i = false.
Proof.
  induction js as [|j js IH] using rev_ind; [intros []|].
  intros Hin. rewrite foldl_app. cbn [foldl]. rewrite aget_aset_false.
  destruct (decide (Z.to_nat i = Z.to_nat j)); [reflexivity|].
  apply IH. apply in_app_iff in Hin as [Hin|[->|[]]]; [exact Hin | congruence].
Qed.

Lemma clearTouchSensors_cleared w i :
  0 <= i < BODYPART_COUNT -> getTouchSensor (clearTouchSensors w) i = false.
Proof.
  intros Hi. unfold getTouchSensor, clearTouchSensors. cbn [m_touchSensors withTouchSensors].
  apply cleared_at. apply list_elem_of_In, elem_of_seqZ. lia.
Qed.

(** The sensors of a walker in evaluation are cleared by every update,
    control tick or not. *)
Lemma updateEvaluation_cleared delta motorStrength legTargetFrequency w i :
  m_inEvaluation w = true -> 0 <= i < BODYPART_COUNT ->
  getTouchSensor (updateEvaluation delta motorStrength legTargetFrequency w) i = false.
Proof.
  intros Hin Hi. unfold updateEvaluation. rewrite Hin.
  apply clearTouchSensors_cleared. exact Hi.
Qed.

(** C5 (as the code has it): an update clears every touch sensor of every
    walker in evaluation, whether or not the controller ticked in it; a
    contact is therefore seen by the controller only in the update that
    follows it.  The sensors of idle walkers are left as they are. *)
Theorem sensors_cleared_every_update cfg timeSinceLastTick s :
  populationSize s = POPULATION_SIZE cfg ->
  exists s',
    updateEvaluations cfg timeSinceLastTick s = Ok (tt, s') /\
    populationSize s' = populationSize s /\
    forall r w w', walker s r = Some w -> walker s' r = Some w' ->
      if m_inEvaluation w
      then forall i, 0 <= i < BODYPART_COUNT -> getTouchSensor w' i = false
      else w' = w.
Proof.
  intros Hsize.
  pose proof (updateEvaluations_spec cfg timeSinceLastTick s Hsize) as H.
  apply wpx_run in H. destruct H as ([] & s' & E & Hframe & Hl).
  exists s'. split; [exact E|]. split.
  { unfold populationSize. rewrite Hl, length_fmap. reflexivity. }
  intros r w w' Hw Hw'. apply walker_lookup in Hw, Hw'.
  rewrite Hl, list_lookup_fmap, Hw in Hw'. injection Hw' as <-.
  destruct (m_inEvaluation w) eqn:Hin.
  - intros i Hi. apply updateEvaluation_cleared; assumption.
  - apply updateEvaluation_idle. exact Hin.
Qed.

(** ** The controller *)

Lemma mul_zero_finite x :
  isFinite x = true -> exists sz, (x * F32.of_int 0)%f32 = S754_zero sz.
Proof.
  rewrite of_int_0. destruct x as [sx|sx| |sx mx ex]; try discriminate; intros _;
    eexists; reflexivity.
Qed.

Lemma add_zero_zero sz : (S754_zero false + S754_zero sz)%f32 = S754_zero false.
Proof. destruct sz; reflexivity. Qed.

Lemma aget_finite l k :
  Forall (fun x => isFinite x = true) l -> isFinite (aget (F32.of_int 0) l k) = true.
Proof.
  intros Hfin. unfold aget. destruct (_ !! _) as [x|] eqn:E; [|reflexivity].
  rewrite Forall_lookup in Hfin. apply (Hfin _ _ E).
Qed.

(** With its own sensor clear, the raw activation of a joint is [0],
    whatever the other sensors are. *)
Lemma accumulateSensorInputs_clear w i :
  Forall (fun x => isFinite x = true) (m_sensoryMotorWeights w) ->
  getTouchSensor w i = false ->
  accumulateSensorInputs w i = F32.of_int 0.
Proof.
  intros Hfin Hclear. unfold accumulateSensorInputs. rewrite Hclear. cbn [Z.b2z].
  generalize (seqZ 0 JOINT_COUNT). intros js.
  induction js as [|j js IH] using rev_ind; [reflexivity|].
  rewrite foldl_app. cbn [foldl]. rewrite IH.
  destruct (mul_zero_finite
              (aget (F32.of_int 0) (getSensoryMotorWeights w) (i + j * BODYPART_COUNT)))
    as [sz ->]; [|exact (add_zero_zero sz)].
  apply aget_finite. exact Hfin.
Qed.

(** The consequence of C4 that holds: with every sensor clear and
    [tanh 0 = 0], every joint is driven to the middle of its limits. *)
Lemma controller_at_rest w i hingeC :
  tanh (F32.of_int 0) = F32.of_int 0 ->
  Forall (fun x => isFinite x = true) (m_sensoryMotorWeights w) ->
  (forall k, getTouchSensor w k = false) ->
  accumulateSensorInputs w i = F32.of_int 0 /\
  activation (accumulateSensorInputs w i) = F32.lit 5 10 /\
  targetLimitAngle hingeC (activation (accumulateSensorInputs w i))
  = (m_lowerLimit hingeC + F32.lit 5 10 * (m_upperLimit hingeC - m_lowerLimit hingeC))%f32.
Proof.
  intros Htanh Hfin Hclear.
  rewrite (accumulateSensorInputs_clear w i Hfin (Hclear i)).
  split; [reflexivity|].
  assert (Hact : activation (F32.of_int 0) = F32.lit 5 10).
  { unfold activation. rewrite Htanh. reflexivity. }
  rewrite Hact. split; reflexivity.
Qed.

(** ** A uniform draw is not negative *)

Lemma iter_pos_inv {A} (P : A -> Prop) (f : A -> A) :
  (forall x, P x -> P (f x)) -> forall n x, P x -> P (SpecFloat.iter_pos f n x).
Proof.
  intros Hf. induction n as [n IH|n IH|]; intros x Hx; cbn [SpecFloat.iter_pos]; auto.
Qed.

Lemma shr_1_nonneg mrs : 0 <= shr_m mrs -> 0 <= shr_m (shr_1 mrs).
Proof.
  destruct mrs as [m r s]. cbn [shr_m]. intros Hm.
  destruct m as [|p|p]; [cbn; lia | destruct p; cbn; lia | lia].
Qed.

Lemma shr_nonneg mrs e n : 0 <= shr_m mrs -> 0 <= shr_m (fst (shr mrs e n)).
Proof.
  intros Hm. destruct n as [|p|p]; cbn [shr fst]; [exact Hm | | exact Hm].
  apply (iter_pos_inv (fun x => 0 <= shr_m x)); [apply shr_1_nonneg | exact Hm].
Qed.

Lemma shr_fexp_nonneg prec emax m e l :
  0 <= m -> 0 <= shr_m (fst (shr_fexp prec emax m e l)).
Proof.
  intros Hm. unfold shr_fexp. apply shr_nonneg.
  destruct l as [|[]]; cbn; exact Hm.
Qed.

Lemma round_nearest_even_nonneg m l : 0 <= m -> 0 <= round_nearest_even m l.
Proof.
  intros Hm. destruct l as [|[]]; cbn [round_nearest_even]; try lia.
  destruct (Z.even m); lia.
Qed.

Lemma binary_round_aux_nonneg prec emax mx ex lx :
  0 <= mx -> isNonNegative (binary_round_aux prec emax false mx ex lx) = true.
Proof.
  intros Hm. unfold binary_round_aux.
  pose proof (shr_fexp_nonneg prec emax mx ex lx Hm) as H1.
  destruct (shr_fexp prec emax mx ex lx) as [mrs' e']. cbn [fst] in H1.
  pose proof (shr_fexp_nonneg prec emax
                (round_nearest_even (shr_m mrs') (loc_of_shr_record mrs')) e' loc_Exact
                (round_nearest_even_nonneg _ _ H1)) as H2.
  destruct (shr_fexp prec emax _ e' loc_Exact) as [mrs'' e'']. cbn [fst] in H2.
  destruct (shr_m mrs'') as [|p|p]; [reflexivity | | lia].
  destruct (e'' <=? emax - prec); reflexivity.
Qed.

Lemma binary_round_nonneg prec emax m e :
  isNonNegative (binary_round prec emax false m e) = true.
Proof.
  unfold binary_round. destruct (shl_align m e _) as [mz ez].
  apply binary_round_aux_nonneg. lia.
Qed.

Lemma of_int_nonneg prec emax z :
  0 <= z -> isNonNegative (binary_normalize prec emax z 0 false) = true.
Proof.
  intros Hz. destruct z as [|p|p]; [reflexivity | apply binary_round_nonneg | lia].
Qed.

Lemma div_nonneg prec emax x y :
  isNonNegative x = true -> x <> S754_nan -> isFinitePositive y = true ->
  isNonNegative (SFdiv prec emax x y) = true.
Proof.
  intros Hx Hnan Hy.
  destruct y as [| | |[] my ey]; try discriminate.
  destruct x as [sx|[]| |[] mx ex]; try discriminate; try congruence; try reflexivity.
  cbn [SFdiv xorb]. unfold SFdiv_core_binary.
  set (e' := Z.min _ _). set (m' := match _ with Z0 => _ | Zpos _ => _ | Zneg _ => _ end).
  assert (Hm' : 0 <= m').
  { subst m'. destruct (ex - ey - e') as [|p|p]; [lia | | lia].
    apply Z.shiftl_nonneg. lia. }
  pose proof (Z.div_pos m' (Zpos my) Hm' ltac:(lia)) as Hq.
  unfold Z.div in Hq. destruct (Z.div_eucl m' (Zpos my)) as [q r]. cbn [fst] in Hq.
  apply binary_round_aux_nonneg. exact Hq.
Qed.

Lemma binary_round_aux_not_nan prec emax mx ex lx :
  0 <= mx -> binary_round_aux prec emax false mx ex lx <> S754_nan.
Proof.
  intros Hm E. pose proof (binary_round_aux_nonneg prec emax mx ex lx Hm) as H.
  rewrite E in H. discriminate.
Qed.

Lemma round_nonneg x : isNonNegative x = true -> isNonNegative (F32.round x) = true.
Proof.
  destruct x as [sx|[]| |[] mx ex]; try discriminate; intros _; try reflexivity.
  apply binary_round_nonneg.
Qed.

Lemma randUnit_nonneg r :
  0 <= r -> isFinitePositive (F64.of_int RAND_MAX) = true ->
  isNonNegative (randUnit r) = true.
Proof.
  intros Hr Hmax. unfold randUnit, randDouble. apply round_nonneg.
  apply div_nonneg; [apply of_int_nonneg; exact Hr | | exact Hmax].
  unfold F64.of_int. destruct r as [|p|p]; [discriminate | | lia].
  cbn [binary_normalize]. unfold binary_round. destruct (shl_align p 0 _) as [mz ez].
  apply binary_round_aux_not_nan. lia.
Qed.

Lemma nonneg_ge_zero x : isNonNegative x = true -> (x >=? S754_zero false)%f32 = true.
Proof. destruct x as [sx|[]| |[] mx ex]; try discriminate; reflexivity. Qed.

(** ** Mutation at rate zero *)

(** At mutation rate [0] every weight of the mutant is replaced by a fresh
    draw: the test [random >= mutationRate] never fails. *)
Lemma mutate_rate_zero s c w :
  rand_in_range -> isFinitePositive (F64.of_int RAND_MAX) = true ->
  walker s c = Some w ->
  wpx False (mutate (Some c) (S754_zero false))
      (fun _ s' => exists ws,
         walker s' c = Some (withWeights ws w) /\
         length ws = length (m_sensoryMotorWeights w) /\
         forall i, (i < Z.to_nat (BODYPART_COUNT * JOINT_COUNT))%nat ->
           (i < length ws)%nat ->
           ws !! i = Some (randWeight (rand_out (randCalls s + 2 * i + 1)%nat))) s.
Proof.
  intros Hrand Hmax Hw. pose proof (walker_Some _ _ _ Hw) as Hc. unfold mutate.
  eapply wpx_mono.
  - apply (wpx_forM False
      (fun k _ s' =>
         randCalls s' = (randCalls s + 2 * k)%nat /\
         populationSize s' = populationSize s /\
         exists ws,
           walker s' c = Some (withWeights ws w) /\
           length ws = length (m_sensoryMotorWeights w) /\
           forall i, (i < k)%nat -> (i < length ws)%nat ->
             ws !! i = Some (randWeight (rand_out (randCalls s + 2 * i + 1)%nat)))).
    + split; [lia|]. split; [reflexivity|].
      exists (m_sensoryMotorWeights w). split; [|split; [reflexivity | intros; lia]].
      rewrite Hw. destruct w; reflexivity.
    + intros k [] s1 Hk (Hcalls & Hsz & ws & Hw1 & Hlen & Hfresh). rewrite Z.add_0_l.
      apply wpx_bind, wpx_rand.
      rewrite (nonneg_ge_zero _ (randUnit_nonneg _ (proj1 (Hrand _)) Hmax)).
      apply wpx_bind, wpx_rand.
      apply wpx_call; [right; exists (withWeights ws w); exact Hw1|].
      intros w' Hw'. change (walker s1 c = Some w') in Hw'.
      rewrite Hw1 in Hw'. injection Hw' as <-. cbn [randCalls withRandCalls withWalkers].
      split; [lia|]. split.
      { unfold populationSize. cbn. rewrite length_insert. exact Hsz. }
      exists (aset ws (Z.of_nat k) (randWeight (rand_out (S (randCalls s1))))).
      split.
      { unfold walker. cbn. destruct (Z.ltb_spec c 0); [lia|].
        rewrite list_lookup_insert_eq by (unfold populationSize in *; lia).
        reflexivity. }
      unfold aset. rewrite length_insert, Nat2Z.id. split; [exact Hlen|].
      intros i Hi Hil. destruct (decide (i = k)) as [->|Hne].
      * rewrite list_lookup_insert_eq by exact Hil. rewrite Hcalls.
        do 3 f_equal. lia.
      * rewrite list_lookup_insert_ne by auto. apply Hfresh; lia.
  - intros [] s' (_ & _ & ws & H). exists ws. exact H.
Qed.

(** ** The order of single-precision values *)

Ltac compare_cases :=
  repeat match goal with
         | |- context [Z.compare ?a ?b] => destruct (Z.compare_spec a b)
         | |- context [Pos.compare_cont Eq ?a ?b] =>
             change (Pos.compare_cont Eq a b) with (Pos.compare a b);
             destruct (Pos.compare_spec a b)
         end.

Lemma SFltb_asym a b : SFltb a b = true -> SFltb b a = false.
Proof.
  unfold SFltb, SFcompare.
  destruct a as [sa|sa| |sa ma ea], b as [sb|sb| |sb mb eb];
    repeat match goal with s : bool |- _ => destruct s end;
    try discriminate; try reflexivity;
    compare_cases; cbn; try discriminate; try reflexivity; intros; lia.
Qed.

(** If [a < c] then every number [b] is above [a] or below [c]. *)
Lemma SFltb_between a b c :
  b <> S754_nan -> SFltb a c = true -> SFltb a b = true \/ SFltb b c = true.
Proof.
  unfold SFltb, SFcompare. intros Hb.
  destruct a as [sa|sa| |sa ma ea], c as [sc|sc| |sc mc ec];
    repeat match goal with s : bool |- _ => destruct s end;
    try discriminate;
    destruct b as [sb|sb| |sb mb eb]; try congruence;
    repeat match goal with s : bool |- _ => destruct s end;
    try (intros _; left; reflexivity); try (intros _; right; reflexivity);
    try discriminate;
    compare_cases; cbn; try discriminate;
    try (intros _; left; reflexivity); try (intros _; right; reflexivity);
    intros; lia.
Qed.

(** ** Ranking is stable *)

Lemma ranksBefore_insert x l :
  hasFitness x -> Forall hasFitness l ->
  Forall (fun y => m_index x < m_index y) l ->
  StronglySorted ranksBefore l ->
  StronglySorted ranksBefore (quickSortInsert fitnessComparator x l).
Proof.
  intros Hx Hl Hidx Hsorted.
  induction Hsorted as [|y l Hsorted IH Hy]; cbn [quickSortInsert].
  - repeat constructor.
  - apply Forall_cons in Hl as [Hfy Hl]. apply Forall_cons in Hidx as [Hiy Hidx].
    destruct (fitnessComparator y x) eqn:Hyx.
    + constructor; [apply IH; assumption|].
      rewrite quickSortInsert_Permutation. constructor; [left; exact Hyx | exact Hy].
    + constructor; [constructor; assumption|].
      constructor; [right; auto|].
      rewrite Forall_forall in Hy, Hidx. apply Forall_forall. intros z Hz.
      right. split; [|apply Hidx; exact Hz].
      destruct (fitnessComparator z x) eqn:Hzx; [|reflexivity].
      unfold fitnessComparator, F32.gtb in *.
      destruct (SFltb_between _ (getFitness y) _ Hfy Hzx) as [H|H]; [congruence|].
      destruct (Hy z Hz) as [Hyz|[Hzy _]].
      * unfold fitnessComparator, F32.gtb in Hyz. apply SFltb_asym in Hyz. congruence.
      * unfold fitnessComparator, F32.gtb in Hzy. congruence.
Qed.

Lemma quickSort_ranked l :
  Forall hasFitness l ->
  StronglySorted (fun a b => m_index a < m_index b) l ->
  StronglySorted ranksBefore (quickSort fitnessComparator l).
Proof.
  intros Hl Hidx. induction Hidx as [|x l Hidx IH Hx]; [constructor|].
  apply Forall_cons in Hl as [Hfx Hl].
  cbn [quickSort foldr]. fold (quickSort fitnessComparator l).
  apply ranksBefore_insert.
  - exact Hfx.
  - rewrite quickSort_Permutation. exact Hl.
  - rewrite quickSort_Permutation. exact Hx.
  - apply IH. exact Hl.
Qed.

Lemma ranksBefore_setEvaluationTime t x y :
  ranksBefore x y -> ranksBefore (setEvaluationTime t x) (setEvaluationTime t y).
Proof. intros H. exact H. Qed.

Lemma StronglySorted_fmap {A B} (R : A -> A -> Prop) (R' : B -> B -> Prop) (f : A -> B) l :
  (forall x y, R x y -> R' (f x) (f y)) ->
  StronglySorted R l -> StronglySorted R' (f <$> l).
Proof.
  intros Hf H. induction H as [|x l H IH Hx]; [constructor|].
  cbn. constructor; [exact IH|].
  apply Forall_fmap. eapply Forall_impl; [exact Hx|]. intros y. apply Hf.
Qed.


Lemma mutate_rate_zero_run s c w :
  rand_in_range -> isFinitePositive (F64.of_int RAND_MAX) = true ->
  walker s c = Some w ->
  exists s' ws,
    mutate (Some c) (S754_zero false) s = Ok (tt, s') /\
    walker s' c = Some (withWeights ws w) /\
    length ws = length (m_sensoryMotorWeights w) /\
    forall i, (i < Z.to_nat (BODYPART_COUNT * JOINT_COUNT))%nat ->
      (i < length ws)%nat ->
      ws !! i = Some (randWeight (rand_out (randCalls s + 2 * i + 1)%nat)).
Proof.
  intros Hrand Hmax Hw.
  pose proof (mutate_rate_zero s c w Hrand Hmax Hw) as H. apply wpx_run in H.
  destruct H as ([] & s' & E & ws & H). exists s', ws. split; [exact E | exact H].
Qed.

(** [initPhysics] leaves the example in a started state. *)
Lemma initPhysics_started parallelEvaluations numIterations :
  exists s,
    initPhysics defaultConfig numIterations (newExample parallelEvaluations) = Ok (tt, s) /\
    started defaultConfig s /\ gParallelEvaluations s = parallelEvaluations.
Proof.
  destruct (initPhysics_total defaultConfig parallelEvaluations numIterations)
    as (s & E & Hsz & Hall & Hc & HP).
  exists s. split; [exact E|]. split; [|exact HP].
  apply roundStart_started; assumption.
Qed.

(** A [NULL] offspring or refill makes [sow] fault: [crossover] writes
    through the pointer in its first round, and the refill calls
    [setReaped] on it. *)
Lemma crossover_null_child mother father s :
  exists e, crossover mother father None s = Failed e.
Proof.
  unfold crossover. change (Z.to_nat (BODYPART_COUNT * JOINT_COUNT)) with (S 155).
  cbn [forM]. unfold mbind at 1, M_bind at 1. unfold mbind at 1, M_bind at 1.
  cbn [rand]. destruct (_ >=? _)%f32.
  - unfold mbind at 1, M_bind at 1.
    destruct (deref mother _) as [[m s1]|e]; [|eauto].
    cbn. eauto.
  - unfold mbind at 1, M_bind at 1.
    destruct (deref father _) as [[f s1]|e]; [|eauto].
    cbn. eauto.
Qed.

End Engine.

(** ** Instances at the sample inputs *)

Lemma reaped_count_default_witness :
  exists reaped s1 sown s2,
    reapLoop defaultConfig sampleState = Ok (reaped, s1) /\
    sowCrossover sampleRAND_MAX sampleRand defaultConfig s1 = Ok (sown, s2) /\
    marked_from 35 sampleState s1 /\
    reaped = 15 /\
    reaped = F32.to_int (F32.of_int (POPULATION_SIZE defaultConfig - 1)
                         * REAP_QTY defaultConfig)%f32 + 1 /\
    sown = 10 /\ sown <= reaped.
Proof.
  apply (reaped_count_default sampleRAND_MAX sampleRand sampleState).
  - intros n. unfold sampleRand, sampleRAND_MAX. lia.
  - unfold sampleRAND_MAX. lia.
  - reflexivity.
  - reflexivity.
Defined.

Lemma sow_never_asks_too_many_witness :
  exists s',
    (reap defaultConfig;; sow sampleRAND_MAX sampleRand defaultConfig) sampleState
    = Ok (tt, s') /\
    console s' = MsgSown 15 :: MsgReaped 15 :: console sampleState /\
    m_nextReapedIndex s' = 15.
Proof.
  apply (sow_never_asks_too_many sampleRAND_MAX sampleRand sampleState).
  - intros n. unfold sampleRand, sampleRAND_MAX. lia.
  - unfold sampleRAND_MAX. lia.
  - reflexivity.
  - reflexivity.
Defined.

Lemma elite_walkers_untouched_witness :
  exists s1 s2,
    reap defaultConfig sampleState = Ok (tt, s1) /\
    sow sampleRAND_MAX sampleRand defaultConfig s1 = Ok (tt, s2) /\
    forall i, 0 <= i < eliteCount defaultConfig ->
      walker s1 i = walker sampleState i /\ walker s2 i = walker sampleState i.
Proof.
  apply (elite_walkers_untouched sampleRAND_MAX sampleRand sampleState).
  - intros n. unfold sampleRand, sampleRAND_MAX. lia.
  - unfold sampleRAND_MAX. lia.
  - reflexivity.
  - reflexivity.
Defined.

Lemma parallel_evaluations_bounded_witness :
  exists s,
    update sampleRAND_MAX sampleRand sampleTanh sampleBodies sampleJoints
      defaultConfig (F32.lit 1 60) sampleState = Ok (tt, s) /\
    evaluating (m_walkersInPopulation s) <= 10 /\
    m_walkersInEvaluation s = evaluating (m_walkersInPopulation s).
Proof.
  exists (match update sampleRAND_MAX sampleRand sampleTanh sampleBodies sampleJoints
                  defaultConfig (F32.lit 1 60) sampleState with
          | Ok (_, s) => s
          | Failed _ => sampleState
          end).
  split; [vm_compute; reflexivity|].
  apply (parallel_evaluations_bounded sampleRAND_MAX sampleRand sampleTanh
           sampleBodies sampleJoints sampleState 10).
  - intros n. unfold sampleRand, sampleRAND_MAX. lia.
  - unfold sampleRAND_MAX. lia.
  - split; [reflexivity|]. split; [reflexivity|].
    apply Forall_fmap, Forall_forall. intros i _. reflexivity.
  - reflexivity.
  - lia.
  - apply (reach_update _ _ _ _ _ _ _ sampleState (F32.lit 1 60));
      [apply reach_start | vm_compute; reflexivity].
Defined.


(** C9, counterexample: the default configuration with no room for an
    evaluation is not well-formed, and start-up does not fail on it. *)
Lemma startup_accepts_malformed :
  ~ (wellFormed defaultConfig (F32.of_int 0) = false ->
     exists f,
       initPhysics sampleRAND_MAX sampleRand sampleBodies sampleJoints defaultConfig 10
         (newExample (F32.of_int 0)) = Failed f).
Proof.
  intros H. destruct (H eq_refl) as [f Hf].
  destruct (initPhysics_total sampleRAND_MAX sampleRand sampleBodies sampleJoints
              defaultConfig (F32.of_int 0) 10) as (s & E & _).
  rewrite E in Hf. discriminate Hf.
Qed.

Lemma seqZ_sorted m n : StronglySorted Z.lt (seqZ m n).
Proof.
  destruct (Z.le_gt_cases n 0) as [Hn|Hn]; [rewrite seqZ_nil by lia; constructor|].
  rewrite <- (Z2Nat.id n) by lia. generalize (Z.to_nat n). clear. intros k. revert m.
  induction k as [|k IH]; intros m; [rewrite seqZ_nil by lia; constructor|].
  rewrite seqZ_cons by lia. replace (Z.pred (Z.of_nat (S k))) with (Z.of_nat k) by lia.
  constructor; [apply IH|].
  apply Forall_forall. intros x Hx. apply elem_of_seqZ in Hx. lia.
Qed.


Lemma sensors_cleared_every_update_witness :
  exists s',
    updateEvaluations sampleTanh defaultConfig (F32.lit 1 60) sampleState = Ok (tt, s') /\
    populationSize s' = populationSize sampleState /\
    forall r w w', walker sampleState r = Some w -> walker s' r = Some w' ->
      if m_inEvaluation w
      then forall i, 0 <= i < BODYPART_COUNT -> getTouchSensor w' i = false
      else w' = w.
Proof.
  apply (sensors_cleared_every_update sampleTanh defaultConfig (F32.lit 1 60) sampleState).
  reflexivity.
Defined.

(** C5, counterexample: a sensor bit set by a contact is gone after an
    update in which the controller did not tick (the accumulator is at
    1/60 s, the control period is 1/3 s). *)
Lemma touch_cleared_without_tick :
  ~ accumulatesUntilTick sampleTanh (F32.lit 1 60) (F32.lit 5 10) (F32.of_int 3)
      contactWalker 3.
Proof.
  intros H. specialize (H eq_refl eq_refl eq_refl). vm_compute in H. discriminate H.
Qed.

(** C4 (failing input): for a walker with all weights [1] whose only
    contact is at body part 1, the controller computes raw activation [0]
    for joint 0 and [12] for joint 1, where the sum over the sensors of
    [W[sensor][j] * S[sensor]] is [1] for both: the inner loop reads the
    sensor of the joint's own index and adds up the weights of its row. *)
Theorem controller_reads_own_sensor_only :
  accumulateSensorInputs crossedWalker 0 = F32.of_int 0 /\
  specRawActivation crossedWalker 0 = F32.of_int 1 /\
  accumulateSensorInputs crossedWalker 1 = F32.of_int 12 /\
  specRawActivation crossedWalker 1 = F32.of_int 1.
Proof. vm_compute. repeat split. Qed.

(** C1 (failing input): at the first rank of the mutation band the rate
    [sow] passes to [mutate] is [0], and [mutate] replaces every one of the
    156 weights of that walker by a fresh random value: the test
    [random >= mutationRate] holds for every draw. *)
Theorem mutation_at_rate_zero_replaces_every_weight :
  mutationRateAt defaultConfig (eliteCount defaultConfig) = F32.of_int 0 /\
  exists s' ws,
    mutate sampleRAND_MAX sampleLcg (Some (eliteCount defaultConfig))
      (mutationRateAt defaultConfig (eliteCount defaultConfig)) sampleState = Ok (tt, s') /\
    walker s' (eliteCount defaultConfig) = Some (withWeights ws (sampleWalker 10)) /\
    length ws = 156%nat /\
    forall i, (i < 156)%nat ->
      ws !! i = Some (randWeight sampleRAND_MAX (sampleLcg (2 * i + 1))).
Proof.
  replace (eliteCount defaultConfig) with 10 by (vm_compute; reflexivity).
  replace (mutationRateAt defaultConfig 10) with (S754_zero false)
    by (vm_compute; reflexivity).
  split; [reflexivity|].
  destruct (mutate_rate_zero_run sampleRAND_MAX sampleLcg sampleState 10 (sampleWalker 10))
    as (s' & ws & E & Hw & Hlen & Hfresh).
  - intros n. unfold sampleLcg, sampleRAND_MAX.
    pose proof (Z.mod_pos_bound (Z.of_nat n * 1103515245 + 12345) 2147483648 ltac:(lia)).
    lia.
  - vm_compute. reflexivity.
  - vm_compute. reflexivity.
  - exists s', ws. split; [exact E|]. split; [exact Hw|].
    split; [exact Hlen|].
    intros i Hi. apply Hfresh; [exact Hi | rewrite Hlen; exact Hi].
Qed.
